(** * Definer: the lookup-and-command engine of [main.js]

    A shallow embedding of the glossary tool's core: the [Utils], [Data],
    [Commands] and [App] modules of [src/main.js], with the properties the
    specification states about them.

    Modelling conventions.
    - A JavaScript string is a [string]: a sequence of code units, here the
      code units 0..255 (Latin-1), on which [toLowerCase], [trim] and the
      regular expressions of the source act as they do in JavaScript.
    - Arrays are lists; an array that is shared and updated in place is a
      field of the program state, and a function that mutates it returns the
      new state.
    - Module-level [let] variables ([definitions], [commandHistory],
      [currentEditIndex], [pendingImportData], [historyIndex]) are the fields
      of [State]; the DOM, [localStorage] and the file dialog are fields that
      record what was handed to them. *)

From Stdlib Require Import ZArith Ascii String List Lia Permutation Sorted.
From stdpp Require Import base tactics option list strings pretty gmap.

Open Scope string_scope.
Open Scope list_scope.
Open Scope nat_scope.

(* ===================================================================== *)
(** * Utils.levenshteinDistance *)
(* ===================================================================== *)

Module Lev.

(** The textbook recurrence, on lists of code units, peeling the first
    element of each argument.  It is the reference the matrix code is
    compared with. *)
Definition indicator (x y : ascii) : nat := if decide (x = y) then 0 else 1.

Definition min3 (x y z : nat) : nat := Nat.min x (Nat.min y z).

Fixpoint lev (a b : list ascii) {struct a} : nat :=
  match a with
  | [] => length b
  | x :: a' =>
      (fix lev_row (b : list ascii) : nat :=
         match b with
         | [] => S (length a')
         | y :: b' =>
             min3 (S (lev a' (y :: b'))) (S (lev_row b')) (lev a' b' + indicator x y)
         end) b
  end.

(** The matrix of the source: [b.length + 1] rows of [a.length + 1] cells,
    every cell [null] at first. *)
Abbreviation Matrix := (list (list (option nat))).

Definition new_matrix (la lb : nat) : Matrix :=
  replicate (S lb) (replicate (S la) None).

(** [matrix[j][i]] read as a number: [null] counts as 0 in arithmetic. *)
Definition cell (m : Matrix) (j i : nat) : nat :=
  match m !! j with
  | Some row => match row !! i with Some (Some n) => n | _ => 0 end
  | None => 0
  end.

(** [matrix[j][i] = v].  The loops of the source stay within the matrix;
    an index outside it leaves the model's matrix as it is. *)
Definition set_cell (m : Matrix) (j i v : nat) : Matrix :=
  alter (fun row => <[i := Some v]> row) j m.

(** [for (let k = from; k <= to; k += 1) body], threading the matrix. *)
Definition for_range (from upto : nat) (body : Matrix -> nat -> Matrix)
    (m : Matrix) : Matrix :=
  foldl body m (seq from (S upto - from)).

Definition same_unit (a b : list ascii) (i j : nat) : bool :=
  bool_decide (a !! i = b !! j).

Definition fill (a b : list ascii) : Matrix :=
  let la := length a in
  let lb := length b in
  let m0 := new_matrix la lb in
  let m1 := for_range 0 la (fun m i => set_cell m 0 i i) m0 in
  let m2 := for_range 0 lb (fun m j => set_cell m j 0 j) m1 in
  for_range 1 lb (fun m j =>
    for_range 1 la (fun m i =>
      let ind := if same_unit a b (i - 1) (j - 1) then 0 else 1 in
      set_cell m j i
        (min3 (cell m j (i - 1) + 1) (cell m (j - 1) i + 1)
              (cell m (j - 1) (i - 1) + ind))) m) m2.

Definition distance (a b : list ascii) : nat :=
  cell (fill a b) (length b) (length a).

End Lev.

(** [Utils.levenshteinDistance(a, b)]. *)
Definition levenshteinDistance (a b : string) : nat :=
  Lev.distance (list_ascii_of_string a) (list_ascii_of_string b).

(* ===================================================================== *)
(** * JavaScript string and array primitives used by the source *)
(* ===================================================================== *)

Module JS.

Definition unit_in (lo hi : nat) (c : ascii) : bool :=
  let n := nat_of_ascii c in (lo <=? n) && (n <=? hi).

(** [String.prototype.toLowerCase] on the code units 0..255: the letters
    A..Z and the Latin-1 capitals (0xC0..0xDE except the multiplication sign
    0xD7) move up by 32, every other unit is kept. *)
Definition lower_unit (c : ascii) : ascii :=
  if unit_in 65 90 c || (unit_in 192 222 c && negb (nat_of_ascii c =? 215))
  then ascii_of_nat (nat_of_ascii c + 32)
  else c.

Fixpoint toLowerCase (s : string) : string :=
  match s with
  | EmptyString => EmptyString
  | String c s' => String (lower_unit c) (toLowerCase s')
  end.

(** [s.includes(sub)]: [sub] occurs in [s] as a contiguous substring. *)
Fixpoint includes (s sub : string) : bool :=
  String.prefix sub s ||
  match s with
  | EmptyString => false
  | String _ s' => includes s' sub
  end.

(** Truthiness of a string value: only the empty string is falsy. *)
Definition truthy (s : string) : bool :=
  match s with EmptyString => false | _ => true end.

(** White space of [trim] and of the regular expression class [\s],
    within the code units 0..255: TAB, LF, VT, FF, CR, SPACE, NBSP. *)
Definition is_space (c : ascii) : bool :=
  unit_in 9 13 c || (nat_of_ascii c =? 32) || (nat_of_ascii c =? 160).

Fixpoint trimStart (s : string) : string :=
  match s with
  | EmptyString => EmptyString
  | String c s' => if is_space c then trimStart s' else s
  end.

Definition reverse (s : string) : string :=
  string_of_list_ascii (rev (list_ascii_of_string s)).

Definition trimEnd (s : string) : string := reverse (trimStart (reverse s)).

Definition trim (s : string) : string := trimEnd (trimStart s).

(** [s.split(sep)] for a one-unit separator: always at least one piece. *)
Fixpoint split (sep : ascii) (s : string) : list string :=
  match s with
  | EmptyString => [EmptyString]
  | String c s' =>
      if decide (c = sep) then EmptyString :: split sep s'
      else match split sep s' with
           | w :: ws => String c w :: ws
           | [] => [String c EmptyString]
           end
  end.

(** [arr.join(sep)]. *)
Fixpoint join (sep : string) (l : list string) : string :=
  match l with
  | [] => EmptyString
  | [x] => x
  | x :: l' => x +:+ sep +:+ join sep l'
  end.

(** [arr.includes(x)] on an array of strings. *)
Definition arr_includes (l : list string) (x : string) : bool :=
  bool_decide (x ∈ l).

(** [arr.slice(1)]. *)
Definition slice1 {A} (l : list A) : list A := drop 1 l.

(** [a.localeCompare(b)]: the collation of the host is locale dependent;
    it is taken here as the lexicographic order of the code units, with
    which it agrees on lower-case ASCII letters and on digits. *)
Fixpoint localeCompare (a b : string) : Z :=
  match a, b with
  | EmptyString, EmptyString => 0%Z
  | EmptyString, String _ _ => (-1)%Z
  | String _ _, EmptyString => 1%Z
  | String x a', String y b' =>
      if nat_of_ascii x <? nat_of_ascii y then (-1)%Z
      else if nat_of_ascii y <? nat_of_ascii x then 1%Z
      else localeCompare a' b'
  end.

(** [arr.sort(cmp)]: a stable sort.  An element is placed before the first
    element it is strictly smaller than, so equal elements keep their order. *)
Fixpoint sort_insert {A} (cmp : A -> A -> Z) (x : A) (l : list A) : list A :=
  match l with
  | [] => [x]
  | y :: l' => if (cmp x y <? 0)%Z then x :: y :: l' else y :: sort_insert cmp x l'
  end.

Definition sort {A} (cmp : A -> A -> Z) (l : list A) : list A :=
  foldl (fun acc x => sort_insert cmp x acc) [] l.

(** The double quote, for markup. *)
Definition dq : string := String (ascii_of_nat 34) EmptyString.

(** The line feed of the template literals. *)
Definition nl : string := String (ascii_of_nat 10) EmptyString.

End JS.

(** [Utils.sanitizeHTML]. *)
Definition sanitize_unit (c : ascii) : string :=
  match nat_of_ascii c with
  | 38 => "&amp;"
  | 60 => "&lt;"
  | 62 => "&gt;"
  | 34 => "&quot;"
  | 39 => "&#039;"
  | _ => String c EmptyString
  end.

Fixpoint sanitizeHTML (str : string) : string :=
  match str with
  | EmptyString => EmptyString
  | String c s' => sanitize_unit c +:+ sanitizeHTML s'
  end.

(* ===================================================================== *)
(** * Data model *)
(* ===================================================================== *)

(** One entry of the collection.  [aliases] and [tags] are optional in the
    stored format; [None] is an absent field. *)
Record Def := mkDef {
  term : string;
  aliases : option (list string);
  tags : option (list string);
  definition : string
}.

#[global] Instance Def_eq_dec : EqDecision Def.
Proof. solve_decision. Defined.

(** [def.aliases || []]. *)
Definition aliases_or_empty (def : Def) : list string := default [] (aliases def).

(** A result descriptor [{ html, className }] handed to the renderer. *)
Record Result := mkResult {
  html : string;
  className : option string
}.

(* ===================================================================== *)
(** * Data module *)
(* ===================================================================== *)

Module Data.

(** The variables of the module and the item it keeps in [localStorage]
    (the parsed content of the item; [None] when the item is absent). *)
Record t := mk {
  definitions : list Def;
  commandHistory : list string;
  storage : option (list Def)
}.

Definition with_definitions (defs : list Def) (d : t) : t :=
  mk defs (commandHistory d) (storage d).

Definition with_commandHistory (h : list string) (d : t) : t :=
  mk (definitions d) h (storage d).

(** [loadDefinitions], with the default data set of the page as argument. *)
Definition load (defaultDefs : list Def) (d : t) : t :=
  match storage d with
  | Some stored => with_definitions stored d
  | None => with_definitions defaultDefs d
  end.

(** [persistDefinitions]. *)
Definition persist (d : t) : t :=
  mk (definitions d) (commandHistory d) (Some (definitions d)).

Record Matches := mkMatches {
  exactMatch : option Def;
  partialMatches : list Def
}.

Definition is_exact (searchTerm : string) (def : Def) : bool :=
  let termLower := JS.toLowerCase (term def) in
  let aliasesLower := map JS.toLowerCase (aliases_or_empty def) in
  bool_decide (termLower = searchTerm) || JS.arr_includes aliasesLower searchTerm.

Definition is_partial (searchTerm : string) (def : Def) : bool :=
  let termLower := JS.toLowerCase (term def) in
  let aliasesLower := map JS.toLowerCase (aliases_or_empty def) in
  JS.includes termLower searchTerm ||
  existsb (fun a => JS.includes a searchTerm) aliasesLower.

(** The [for ... of] loop of [findMatches]: it stops at the first exact
    match, and until then pushes every containment hit. *)
Fixpoint findMatches_loop (searchTerm : string) (defs : list Def)
    (partialMatches : list Def) : option Def * list Def :=
  match defs with
  | [] => (None, partialMatches)
  | def :: rest =>
      if is_exact searchTerm def then (Some def, partialMatches)
      else if is_partial searchTerm def
           then findMatches_loop searchTerm rest (partialMatches ++ [def])
           else findMatches_loop searchTerm rest partialMatches
  end.

Definition findMatches (term : string) (defs : list Def) : Matches :=
  let searchTerm := JS.toLowerCase term in
  match findMatches_loop searchTerm defs [] with
  | (Some exact, _) => mkMatches (Some exact) []
  | (None, partials) => mkMatches None partials
  end.

(** [bestMatch]: [bm_distance = None] is [Infinity]. *)
Record BestMatch := mkBest {
  bm_term : option string;
  bm_distance : option nat
}.

Definition SUGGESTION_THRESHOLD : nat := 3.

(** [dist < bestMatch.distance]. *)
Definition closer (dist : nat) (best : BestMatch) : bool :=
  match bm_distance best with
  | None => true
  | Some d => dist <? d
  end.

Definition keys_of (def : Def) : list string := term def :: aliases_or_empty def.

Definition score_key (term : string) (best : BestMatch) (key : string) : BestMatch :=
  let dist := levenshteinDistance term (JS.toLowerCase key) in
  if closer dist best then mkBest (Some key) (Some dist) else best.

Definition scan (term : string) (defs : list Def) : BestMatch :=
  foldl (fun best def => foldl (score_key term) best (keys_of def))
        (mkBest None None) defs.

Definition getBestSuggestion (term : string) (defs : list Def) : option string :=
  let bestMatch := scan term defs in
  match bm_distance bestMatch with
  | Some d => if d <=? SUGGESTION_THRESHOLD then bm_term bestMatch else None
  | None => None
  end.

Definition addDefinition (def : Def) (defs : list Def) : list Def := defs ++ [def].

(** [definitions[index] = def].  Within the array the element is replaced,
    at its end the array grows by one; further out JavaScript makes a sparse
    array, which is no collection of entries any more: [None]. *)
Definition updateDefinition (index : nat) (def : Def) (defs : list Def)
    : option (list Def) :=
  if decide (index < length defs) then Some (<[index := def]> defs)
  else if decide (index = length defs) then Some (defs ++ [def])
  else None.

(** [definitions.splice(index, 1)]. *)
Definition deleteDefinition (index : nat) (defs : list Def) : list Def :=
  delete index defs.

Definition addToHistory (cmd : string) (h : list string) : list string :=
  if bool_decide (length h = 0) || negb (bool_decide (last h = Some cmd))
  then h ++ [cmd] else h.

Definition clearHistory (h : list string) : list string := [].

End Data.

(* ===================================================================== *)
(** * UI module *)
(* ===================================================================== *)

Module UI.

(** What the page shows: the blocks appended to [#output], the value of the
    command input, and the editor modal with its four fields. *)
Record t := mk {
  output : list string;
  commandInput : string;
  termInput : string;
  aliasesInput : string;
  tagsInput : string;
  definitionInput : string;
  previewOutput : string;
  editorMessage : string;
  editorHidden : bool
}.

Definition with_output (o : list string) (u : t) : t :=
  mk o (commandInput u) (termInput u) (aliasesInput u) (tagsInput u)
     (definitionInput u) (previewOutput u) (editorMessage u) (editorHidden u).

Definition with_commandInput (v : string) (u : t) : t :=
  mk (output u) v (termInput u) (aliasesInput u) (tagsInput u)
     (definitionInput u) (previewOutput u) (editorMessage u) (editorHidden u).

Definition with_editorHidden (h : bool) (u : t) : t :=
  mk (output u) (commandInput u) (termInput u) (aliasesInput u) (tagsInput u)
     (definitionInput u) (previewOutput u) (editorMessage u) h.

Definition setEditorMessage (msg : string) (u : t) : t :=
  mk (output u) (commandInput u) (termInput u) (aliasesInput u) (tagsInput u)
     (definitionInput u) (previewOutput u) msg (editorHidden u).

(** [renderBlock]: typesetting of the mathematics and scrolling are the
    renderer's own business. *)
Definition renderBlock (htmlContent : string) (u : t) : t :=
  with_output (output u ++ [htmlContent +:+ "<br>"]) u.

Definition welcome : string :=
  "<p>LaTeX Definer v1.0  ---  "
  +:+ String (ascii_of_nat 194) (String (ascii_of_nat 169) EmptyString)
  +:+ " Jeffrey Lu 2025</p><p>Type 'help' to see available commands.</p>".

Definition showWelcomeMessage (u : t) : t := renderBlock welcome u.

Definition clearTerminal (u : t) : t := showWelcomeMessage (with_output [] u).

Definition preview_of (text : string) : string :=
  "<p>" +:+ sanitizeHTML text +:+ "</p>".

Definition updatePreview (u : t) : t :=
  mk (output u) (commandInput u) (termInput u) (aliasesInput u) (tagsInput u)
     (definitionInput u) (preview_of (definitionInput u)) (editorMessage u)
     (editorHidden u).

Definition openEditor (defToEdit : option Def) (u : t) : t :=
  match defToEdit with
  | Some d =>
      mk (output u) (commandInput u) (term d)
         (JS.join ", " (aliases_or_empty d)) (JS.join ", " (default [] (tags d)))
         (definition d) (preview_of (definition d)) "" false
  | None =>
      mk (output u) (commandInput u) "" "" "" "" (preview_of "") "" false
  end.

Definition closeEditor (u : t) : t := with_editorHidden true u.

(** The object [getEditorValues] returns. *)
Record Values := mkValues {
  v_term : string;
  v_aliases : list string;
  v_tags : list string;
  v_definition : string
}.

Definition comma : ascii := ascii_of_nat 44.

Definition field_list (raw : string) : list string :=
  filter (fun a => JS.truthy a = true) (map JS.trim (JS.split comma raw)).

Definition getEditorValues (u : t) : Values :=
  mkValues (JS.trim (termInput u)) (field_list (aliasesInput u))
           (field_list (tagsInput u)) (JS.trim (definitionInput u)).

End UI.

(* ===================================================================== *)
(** * Commands module *)
(* ===================================================================== *)

Module Commands.

Import JS.

(** The variables of the module, the modules it drives, and what it hands
    to the host: the exported collections and the file dialogs opened. *)
Record State := mk {
  data : Data.t;
  ui : UI.t;
  currentEditIndex : option nat;
  pendingImportData : option (list Def);
  downloads : list (list Def);
  fileDialogs : nat
}.

Definition with_data (d : Data.t) (s : State) : State :=
  mk d (ui s) (currentEditIndex s) (pendingImportData s) (downloads s) (fileDialogs s).

Definition with_ui (u : UI.t) (s : State) : State :=
  mk (data s) u (currentEditIndex s) (pendingImportData s) (downloads s) (fileDialogs s).

Definition with_currentEditIndex (i : option nat) (s : State) : State :=
  mk (data s) (ui s) i (pendingImportData s) (downloads s) (fileDialogs s).

Definition with_pendingImportData (p : option (list Def)) (s : State) : State :=
  mk (data s) (ui s) (currentEditIndex s) p (downloads s) (fileDialogs s).

Definition RESERVED_COMMANDS : list string :=
  ["help"; "clear"; "list"; "ls"; "add"; "edit"; "delete"; "rm"; "find";
   "import"; "export"].

Definition confirmFlag : string := "--confirm".

Definition yellow : option string := Some "text-yellow-400".
Definition red : option string := Some "text-red-400".
Definition green : option string := Some "text-green-400".

(** [class="c"] and friends: a value between double quotes. *)
Definition quoted (c : string) : string := dq +:+ c +:+ dq.

Fixpoint findIndex {A} (p : A -> bool) (l : list A) : option nat :=
  match l with
  | [] => None
  | x :: l' => if p x then Some 0 else S <$> findIndex p l'
  end.

Definition names (termLower : string) (d : Def) : bool :=
  bool_decide (toLowerCase (term d) = termLower) ||
  match aliases d with
  | Some al => arr_includes (map toLowerCase al) termLower
  | None => false
  end.

(** [findDefinitionAndIndex]: [None] is [{ definition: null, index: -1 }]. *)
Definition findDefinitionAndIndex (searchTerm : string) (defs : list Def)
    : option (Def * nat) :=
  let termLower := toLowerCase searchTerm in
  match findIndex (names termLower) defs with
  | Some defIndex =>
      match defs !! defIndex with
      | Some d => Some (d, defIndex)
      | None => None
      end
  | None => None
  end.

Definition label (name : string) : string :=
  "<span class=" +:+ quoted "font-bold text-green-400" +:+ ">" +:+ name +:+ "</span>".

Definition list_text (l : option (list string)) : string :=
  match l with
  | Some (x :: l') => sanitizeHTML (join ", " (x :: l'))
  | _ => "none"
  end.

Definition formatDefinitionOutput (def : Def) : Result :=
  mkResult
    ("<p>" +:+ label "Term:" +:+ " " +:+ sanitizeHTML (term def) +:+ "</p>"
     +:+ "<p>" +:+ label "Aliases:" +:+ " " +:+ list_text (aliases def) +:+ "</p>"
     +:+ "<p>" +:+ label "Tags:" +:+ " " +:+ list_text (tags def) +:+ "</p>"
     +:+ "<br><p>" +:+ sanitizeHTML (definition def) +:+ "</p>")
    None.

Definition ambiguous_line (def : Def) : string := "- " +:+ sanitizeHTML (term def).

Definition ambiguous_message (partialMatches : list Def) : string :=
  "Ambiguous term. Did you mean one of these?<br>"
  +:+ join "<br>" (map ambiguous_line partialMatches).

Definition not_found_message (term : string) (suggestion : option string) : string :=
  match suggestion with
  | Some sug =>
      if truthy sug
      then "Error: Definition for '" +:+ sanitizeHTML term
           +:+ "' not found. Did you mean '" +:+ sanitizeHTML sug +:+ "'?"
      else "Error: Definition for '" +:+ sanitizeHTML term +:+ "' not found."
  | None => "Error: Definition for '" +:+ sanitizeHTML term +:+ "' not found."
  end.

Definition findDefinition (term : string) (defs : list Def) : Result :=
  if negb (truthy term) then mkResult "Usage: find [term]" yellow
  else
    let m := Data.findMatches term defs in
    match Data.exactMatch m with
    | Some exact => formatDefinitionOutput exact
    | None =>
        match Data.partialMatches m with
        | [only] => formatDefinitionOutput only
        | _ :: _ :: _ => mkResult (ambiguous_message (Data.partialMatches m)) yellow
        | [] =>
            let suggestion := Data.getBestSuggestion (toLowerCase term) defs in
            mkResult (not_found_message term suggestion) red
        end
    end.

Definition help_line (name rest : string) : string :=
  "<p><span class=" +:+ quoted "font-bold" +:+ ">" +:+ name +:+ "</span>"
  +:+ rest +:+ "</p>" +:+ nl.

Definition showHelp : Result :=
  mkResult
    (nl
     +:+ help_line "add" "                 - Opens an editor to add a new definition."
     +:+ help_line "edit [term]" "         - Opens an editor to modify an existing definition."
     +:+ help_line "delete, rm" "          - Deletes a term after confirmation."
     +:+ help_line "find [term]" "         - Displays the definition for a term."
     +:+ help_line "list, ls" "            - Lists all terms, or only terms with a specific [tag]."
     +:+ help_line "import" "              - Imports definitions from a JSON file."
     +:+ help_line "export" "              - Exports all definitions to a JSON file."
     +:+ help_line "clear" "               - Clears the terminal screen and command history."
     +:+ help_line "help" "                - Shows this help message.")
    None.

(** [tag ? Utils.sanitizeHTML(tag.toLowerCase()) : null], kept only when the
    result is truthy, as the two tests on [sanitizedTag] need it. *)
Definition sanitizedTag_of (tag : option string) : option string :=
  match tag with
  | Some t =>
      if truthy t
      then let st := sanitizeHTML (toLowerCase t) in
           if truthy st then Some st else None
      else None
  | None => None
  end.

Definition has_tag (sanitizedTag : string) (def : Def) : bool :=
  match tags def with
  | Some ts => arr_includes (map toLowerCase ts) sanitizedTag
  | None => false
  end.

Definition by_term (a b : Def) : Z :=
  localeCompare (toLowerCase (term a)) (toLowerCase (term b)).

Definition list_line (def : Def) : string :=
  "<p>" +:+ "- " +:+ sanitizeHTML (term def)
  +:+ match aliases def with
      | Some (x :: l') => " (" +:+ sanitizeHTML (join ", " (x :: l')) +:+ ")"
      | _ => ""
      end
  +:+ "</p>".

Definition list_html (title : string) (sorted : list Def) : string :=
  foldl (fun acc def => acc +:+ list_line def)
        ("<p class=" +:+ quoted "text-green-400" +:+ ">" +:+ title +:+ "</p>")
        sorted.

(** [listTerms].  [termsToList] starts as the array of the Store itself;
    [filter] makes a fresh array, and only then is the array that [sort]
    orders in place a copy.  The second component is the Store's array after
    the call. *)
Definition listTerms (tag : option string) (defs : list Def)
    : Result * list Def :=
  match sanitizedTag_of tag with
  | Some sanitizedTag =>
      let termsToList := filter (fun def => has_tag sanitizedTag def = true) defs in
      match termsToList with
      | [] => (mkResult ("No terms found" +:+ " with tag '" +:+ sanitizedTag
                         +:+ "'" +:+ ".") yellow, defs)
      | _ =>
          (mkResult (list_html ("Terms tagged with '" +:+ sanitizedTag +:+ "':")
                               (sort by_term termsToList)) None,
           defs)
      end
  | None =>
      match defs with
      | [] => (mkResult ("No terms found" +:+ "" +:+ ".") yellow, defs)
      | _ =>
          let sorted := sort by_term defs in
          (mkResult (list_html "Available Terms:" sorted) None, sorted)
      end
  end.

(** [deleteTerm]: the result and the Data module after the call. *)
Definition deleteTerm (args : list string) (d : Data.t) : Result * Data.t :=
  let termToDelete :=
    join " " (filter (fun arg => arg <> confirmFlag) (slice1 args)) in
  if negb (truthy termToDelete)
  then (mkResult "Usage: delete [term]" yellow, d)
  else
    match findDefinitionAndIndex termToDelete (Data.definitions d) with
    | None =>
        (mkResult ("Error: Term '" +:+ sanitizeHTML termToDelete +:+ "' not found.")
                  red, d)
    | Some (definition, index) =>
        if negb (arr_includes args confirmFlag)
        then (mkResult
                ("This is a destructive action. To confirm, type: <br><span class="
                 +:+ quoted "font-bold" +:+ ">delete " +:+ sanitizeHTML termToDelete
                 +:+ " " +:+ confirmFlag +:+ "</span>")
                yellow, d)
        else
          let d' := Data.persist
                      (Data.with_definitions
                         (Data.deleteDefinition index (Data.definitions d)) d) in
          (mkResult ("Definition for '" +:+ sanitizeHTML (term definition)
                     +:+ "' has been deleted.") green, d')
    end.

(** [exportDefinitions]: the collection is handed to the download. *)
Definition exportDefinitions (s : State) : State :=
  mk (data s) (ui s) (currentEditIndex s) (pendingImportData s)
     (downloads s ++ [Data.definitions (data s)]) (fileDialogs s).

(** [importDefinitions]: with the flag, the staged payload is installed;
    without it, a file dialog is opened and the call returns at once. *)
Definition importDefinitions (args : list string) (s : State) : Result * State :=
  if arr_includes args "--confirm" then
    match pendingImportData s with
    | Some pending =>
        (mkResult "Definitions successfully imported and saved." green,
         with_pendingImportData None
           (with_data (Data.persist (Data.with_definitions pending (data s))) s))
    | None =>
        (mkResult "No file loaded. Please run 'import' first." yellow, s)
    end
  else
    (mkResult "Opening file dialog..." None,
     mk (data s) (ui s) (currentEditIndex s) (pendingImportData s)
        (downloads s) (S (fileDialogs s))).

(** What the file dialog and the reader hand back: no file chosen, a text
    [JSON.parse] rejects (with the message of the exception), a value that
    is no array, or an array of entries. *)
Inductive FileContent :=
| NoFile
| Unparsable (message : string)
| NotArray
| Parsed (data : list Def).

Definition import_error (message : string) (s : State) : State :=
  with_pendingImportData None
    (with_ui (UI.renderBlock ("<div class=" +:+ quoted "text-red-400" +:+ ">"
                              +:+ "Error reading file: " +:+ message +:+ "</div>")
                             (ui s)) s).

(** Decimal rendering of [data.length] in the template literal. *)
Definition digits (n : nat) : string := pretty n.

(** [data.length > 0 && (!data[0].term || !data[0].definition)]. *)
Definition first_lacks_fields (data : list Def) : bool :=
  match data with
  | first :: _ => negb (truthy (term first)) || negb (truthy (definition first))
  | [] => false
  end.

(** The [onchange] and [onload] callbacks of [importDefinitions]. *)
Definition reader_onload (content : FileContent) (s : State) : State :=
  match content with
  | NoFile => s
  | Unparsable message => import_error message s
  | NotArray => import_error "Invalid format: JSON must be an array." s
  | Parsed data =>
      if first_lacks_fields data
      then import_error
             "Invalid format: Objects must contain 'term' and 'definition' keys." s
      else
        with_ui (UI.renderBlock
                   ("<div class=" +:+ quoted "text-yellow-400" +:+ ">"
                    +:+ "File loaded successfully. Found " +:+ digits (length data)
                    +:+ " definitions.<br>To replace current definitions, type: <span class="
                    +:+ quoted "font-bold" +:+ ">import --confirm</span>" +:+ "</div>")
                   (ui s))
          (with_pendingImportData (Some data) s)
  end.

(** ** saveDefinition *)

(** The reasons for which [saveDefinition] sets the editor message and
    returns, in the order of its tests. *)
Inductive Rejection :=
| RequiredFields
| ReservedTerm (term : string)
| CommaInTerm
| ReservedAlias (alias : string)
| DuplicateAliases
| TermIsAlias
| TermExists (term : string)
| AliasExists (alias : string)
| TermInvalid
| AliasesInvalid
| TagsInvalid.

Definition message (r : Rejection) : string :=
  match r with
  | RequiredFields => "Term and Definition are required."
  | ReservedTerm term => "Error: '" +:+ term +:+ "' is a reserved command."
  | CommaInTerm => "Error: Term cannot contain commas."
  | ReservedAlias alias => "Error: Alias '" +:+ alias +:+ "' is a reserved command."
  | DuplicateAliases => "Error: Duplicate aliases are not allowed."
  | TermIsAlias => "Error: Term cannot also be an alias."
  | TermExists term => "Error: Term '" +:+ term +:+ "' already exists."
  | AliasExists alias => "Error: Alias '" +:+ alias +:+ "' already exists."
  | TermInvalid => "Term contains invalid characters."
  | AliasesInvalid => "Aliases contain invalid characters."
  | TagsInvalid => "Tags can only contain letters, numbers, and hyphens."
  end.

Definition is_alnum (c : ascii) : bool :=
  unit_in 97 122 c || unit_in 65 90 c || unit_in 48 57 c.

(** [/^[a-z0-9\s-'.]+$/i.test(s)]. *)
Definition termRegex_test (s : string) : bool :=
  truthy s &&
  forallb (fun c => is_alnum c || is_space c || (nat_of_ascii c =? 45)
                    || (nat_of_ascii c =? 39) || (nat_of_ascii c =? 46))
          (list_ascii_of_string s).

(** [/^[a-z0-9-]+$/i.test(s)]. *)
Definition tagRegex_test (s : string) : bool :=
  truthy s &&
  forallb (fun c => is_alnum c || (nat_of_ascii c =? 45)) (list_ascii_of_string s).

(** [aliases.find(alias => RESERVED_COMMANDS.includes(alias.toLowerCase()))],
    as the test [if (aliasCollision)] sees it. *)
Definition aliasCollision (aliases : list string) : option string :=
  match List.find (fun alias => arr_includes RESERVED_COMMANDS (toLowerCase alias))
                  aliases with
  | Some alias => if truthy alias then Some alias else None
  | None => None
  end.

(** The set the [forEach] over the collection builds, skipping the entry
    under edit. *)
Definition allOtherTermsAndAliases (definitions : list Def)
    (currentEditIndex : option nat) : gset string :=
  foldl (fun (acc : gset string) '(index, def) =>
           if bool_decide (currentEditIndex = Some index) then acc
           else
             foldl (fun (acc : gset string) alias => {[ toLowerCase alias ]} ∪ acc)
                   ({[ toLowerCase (term def) ]} ∪ acc)
                   (default [] (aliases def)))
        ∅ (imap (fun index def => (index, def)) definitions).

(** The guarded returns of [saveDefinition], from the first test to the
    last: [Some r] when the function stops with rejection [r], [None] when
    every test lets the entry through. *)
Definition validate (v : UI.Values) (definitions : list Def)
    (currentEditIndex : option nat) : option Rejection :=
  let term := UI.v_term v in
  let aliases := UI.v_aliases v in
  let tags := UI.v_tags v in
  let definition := UI.v_definition v in
  let termLower := toLowerCase term in
  if negb (truthy term) || negb (truthy definition) then Some RequiredFields
  else if arr_includes RESERVED_COMMANDS termLower then Some (ReservedTerm term)
  else if includes term "," then Some CommaInTerm
  else
    match aliasCollision aliases with
    | Some alias => Some (ReservedAlias alias)
    | None =>
        let aliasSet : gset string := list_to_set (map toLowerCase aliases) in
        if negb (size aliasSet =? length aliases) then Some DuplicateAliases
        else if bool_decide (termLower ∈ aliasSet) then Some TermIsAlias
        else
          let others := allOtherTermsAndAliases definitions currentEditIndex in
          if bool_decide (termLower ∈ others) then Some (TermExists term)
          else
            match List.find (fun alias => bool_decide (toLowerCase alias ∈ others))
                            aliases with
            | Some alias => Some (AliasExists alias)
            | None =>
                if negb (termRegex_test term) then Some TermInvalid
                else if existsb (fun alias => negb (termRegex_test alias)) aliases
                     then Some AliasesInvalid
                else if existsb (fun tag => negb (tagRegex_test tag)) tags
                     then Some TagsInvalid
                else None
            end
    end.

Definition saved_block (messageClass message : string) : string :=
  "<div class=" +:+ quoted messageClass +:+ ">" +:+ message +:+ "</div>".

(** [saveDefinition], the entry point of the editor's save button.  [None]
    only when the edit index lies beyond the end of the collection (see
    [Data.updateDefinition]). *)
Definition saveDefinition (s : State) : option State :=
  let v := UI.getEditorValues (ui s) in
  let defs := Data.definitions (data s) in
  match validate v defs (currentEditIndex s) with
  | Some r => Some (with_ui (UI.setEditorMessage (message r) (ui s)) s)
  | None =>
      let def := mkDef (UI.v_term v) (Some (UI.v_aliases v)) (Some (UI.v_tags v))
                       (UI.v_definition v) in
      let finish defs' msg :=
        with_ui (UI.renderBlock (saved_block "text-green-400" msg)
                                (UI.closeEditor (ui s)))
                (with_data (Data.persist (Data.with_definitions defs' (data s))) s) in
      match currentEditIndex s with
      | Some index =>
          match Data.updateDefinition index def defs with
          | Some defs' =>
              Some (finish defs' ("Definition for '" +:+ sanitizeHTML (UI.v_term v)
                                  +:+ "' updated."))
          | None => None
          end
      | None =>
          Some (finish (Data.addDefinition def defs)
                       ("Definition for '" +:+ sanitizeHTML (UI.v_term v)
                        +:+ "' saved."))
      end
  end.

(** ** process *)

Definition commandEchoHTML (command : string) : string :=
  "<div class=" +:+ quoted "input-line" +:+ "><span class=" +:+ quoted "prompt-char"
  +:+ ">&gt;</span><p>" +:+ sanitizeHTML command +:+ "</p></div>".

(** The end of [process]: the echo, then the result when it has markup. *)
Definition render_result (command : string) (result : Result) (s : State) : State :=
  let finalHTML :=
    if truthy (html result)
    then commandEchoHTML command
         +:+ "<div"
         +:+ match className result with
             | Some c => if truthy c then " class=" +:+ quoted c else ""
             | None => ""
             end
         +:+ "><br>" +:+ html result +:+ "</div>"
    else commandEchoHTML command in
  with_ui (UI.renderBlock finalHTML (ui s)) s.

Definition process (command : string) (s : State) : State :=
  let commandArgs := split " " (trim command) in
  let baseCommand := toLowerCase (default "" (head commandArgs)) in
  let searchTerm := join " " (slice1 commandArgs) in
  if bool_decide (baseCommand = "help") then render_result command showHelp s
  else if bool_decide (baseCommand = "clear") then
    with_data (Data.with_commandHistory
                 (Data.clearHistory (Data.commandHistory (data s))) (data s))
              (with_ui (UI.clearTerminal (ui s)) s)
  else if bool_decide (baseCommand = "ls") || bool_decide (baseCommand = "list") then
    let '(result, defs') := listTerms (commandArgs !! 1) (Data.definitions (data s)) in
    render_result command result (with_data (Data.with_definitions defs' (data s)) s)
  else if bool_decide (baseCommand = "add") then
    with_ui (UI.renderBlock (commandEchoHTML command) (UI.openEditor None (ui s)))
            (with_currentEditIndex None s)
  else if bool_decide (baseCommand = "edit") then
    if negb (truthy searchTerm)
    then render_result command (mkResult "Usage: edit [term]" yellow) s
    else
      match findDefinitionAndIndex searchTerm (Data.definitions (data s)) with
      | Some (definition, index) =>
          with_ui (UI.renderBlock (commandEchoHTML command)
                                  (UI.openEditor (Some definition) (ui s)))
                  (with_currentEditIndex (Some index) s)
      | None =>
          render_result command
            (mkResult ("Error: Term '" +:+ sanitizeHTML searchTerm +:+ "' not found.")
                      red) s
      end
  else if bool_decide (baseCommand = "rm") || bool_decide (baseCommand = "delete") then
    let '(result, d') := deleteTerm commandArgs (data s) in
    render_result command result (with_data d' s)
  else if bool_decide (baseCommand = "find") then
    render_result command (findDefinition searchTerm (Data.definitions (data s))) s
  else if bool_decide (baseCommand = "export") then
    render_result command (mkResult "Exporting definitions..." green)
                  (exportDefinitions s)
  else if bool_decide (baseCommand = "import") then
    let '(result, s') := importDefinitions commandArgs s in
    render_result command result s'
  else
    render_result command (findDefinition command (Data.definitions (data s))) s.

End Commands.

(* ===================================================================== *)
(** * App module *)
(* ===================================================================== *)

Module App.

Record State := mk {
  commands : Commands.State;
  historyIndex : Z
}.

Inductive Key := Enter | ArrowUp | ArrowDown | OtherKey.

(** [history[historyIndex]] written to the input: a missing element shows
    as the text of [undefined]. *)
Definition history_at (history : list string) (index : Z) : string :=
  if (index <? 0)%Z then "undefined"
  else default "undefined" (history !! Z.to_nat index).

(** The state of the page before [initialize]. *)
Definition start (stored : option (list Def)) : State :=
  mk (Commands.mk (Data.mk [] [] stored)
                  (UI.mk [] "" "" "" "" "" "" "" true)
                  None None [] 0)
     (-1)%Z.

Definition initialize (defaultDefs : list Def) (a : State) : State :=
  let s := commands a in
  mk (Commands.with_ui (UI.showWelcomeMessage (Commands.ui s))
        (Commands.with_data (Data.load defaultDefs (Commands.data s)) s))
     (historyIndex a).

Definition set_input (v : string) (s : Commands.State) : Commands.State :=
  Commands.with_ui (UI.with_commandInput v (Commands.ui s)) s.

Definition handleTerminalInput (key : Key) (a : State) : State :=
  let s := commands a in
  let history := Data.commandHistory (Commands.data s) in
  match key with
  | Enter =>
      let command := JS.trim (UI.commandInput (Commands.ui s)) in
      if JS.truthy command then
        let d := Commands.data s in
        let d1 := Data.with_commandHistory (Data.addToHistory command history) d in
        let historyIndex' := Z.of_nat (length (Data.commandHistory d1)) in
        let s1 := Commands.process command (Commands.with_data d1 s) in
        mk (set_input "" s1) historyIndex'
      else a
  | ArrowUp =>
      if (0 <? historyIndex a)%Z then
        let i := (historyIndex a - 1)%Z in
        mk (set_input (history_at history i) s) i
      else a
  | ArrowDown =>
      if (historyIndex a <? Z.of_nat (length history) - 1)%Z then
        let i := (historyIndex a + 1)%Z in
        mk (set_input (history_at history i) s) i
      else
        mk (set_input "" s) (Z.of_nat (length history))
  | OtherKey => a
  end.

End App.

(* ===================================================================== *)
(** * Vocabulary of the specification *)
(* ===================================================================== *)

(** Equality up to case. *)
Definition same_ci (a b : string) : Prop := JS.toLowerCase a = JS.toLowerCase b.

(** [sub] occurs in [s]: the meaning of [JS.includes]. *)
Definition substring (sub s : string) : Prop :=
  exists pre post, s = pre +:+ sub +:+ post.

(** Some term or alias of [d] equals [q], case-insensitively. *)
Definition named_ci (q : string) (d : Def) : Prop :=
  Exists (fun k => same_ci k q) (Data.keys_of d).

(** Some term or alias of [d] contains [q], case-insensitively. *)
Definition contains_ci (q : string) (d : Def) : Prop :=
  Exists (fun k => JS.includes (JS.toLowerCase k) (JS.toLowerCase q) = true)
         (Data.keys_of d).

#[global] Instance same_ci_dec a b : Decision (same_ci a b).
Proof. unfold same_ci. apply _. Defined.

#[global] Instance named_ci_dec q d : Decision (named_ci q d).
Proof. unfold named_ci. apply _. Defined.

#[global] Instance contains_ci_dec q d : Decision (contains_ci q d).
Proof. unfold contains_ci. apply _. Defined.

(** The two answers of [find] when nothing matches. *)
Definition not_found (query : string) : Result :=
  mkResult ("Error: Definition for '" +:+ sanitizeHTML query +:+ "' not found.")
           (Some "text-red-400").

Definition not_found_suggesting (query key : string) : Result :=
  mkResult ("Error: Definition for '" +:+ sanitizeHTML query
            +:+ "' not found. Did you mean '" +:+ sanitizeHTML key +:+ "'?")
           (Some "text-red-400").

(** The distance [getBestSuggestion] scores a key by, and the
    query-to-key distance the suggestion of [find] is chosen by. *)
Definition scan_distance (term key : string) : nat :=
  levenshteinDistance term (JS.toLowerCase key).

Definition key_distance (query key : string) : nat :=
  scan_distance (JS.toLowerCase query) key.

(** [t] resolves to entry [d], at position [index]: the first entry of the
    collection with a term or alias equal to [t] up to case. *)
Definition resolves (defs : list Def) (t : string) (index : nat) (d : Def) : Prop :=
  defs !! index = Some d /\ named_ci t d /\
  forall j d', j < index -> defs !! j = Some d' -> ~ named_ci t d'.

(** No entry has a term or alias equal to [t] up to case. *)
Definition unresolved (defs : list Def) (t : string) : Prop :=
  Forall (fun d => ~ named_ci t d) defs.

(** The term argument [delete] works on: the words after the command, the
    confirmation flag left out. *)
Definition term_argument (args : list string) : string :=
  JS.join " " (filter (fun arg => arg <> Commands.confirmFlag) (JS.slice1 args)).

(** The command word of an input line, as [process] reads it. *)
Definition base_command (command : string) : string :=
  JS.toLowerCase (default "" (head (JS.split " " (JS.trim command)))).

(** The recall cursor lies within the command history. *)
Definition cursor_in_bounds (a : App.State) : Prop :=
  (0 <= App.historyIndex a
   <= Z.of_nat (length (Data.commandHistory (Commands.data (App.commands a)))))%Z.

#[global] Instance cursor_in_bounds_dec a : Decision (cursor_in_bounds a).
Proof. unfold cursor_in_bounds. apply _. Defined.

(** Every term, followed by its own aliases, in collection order. *)
Definition all_keys (defs : list Def) : list string :=
  concat (map Data.keys_of defs).

(** [k], at position [p] of [keys], has the least [dist], and is the first
    to have it. *)
Definition first_min (dist : string -> nat) (keys : list string) (p : nat)
    (k : string) : Prop :=
  keys !! p = Some k /\
  (forall j k', keys !! j = Some k' -> dist k <= dist k') /\
  (forall j k', j < p -> keys !! j = Some k' -> dist k < dist k').

(** The blank page over a given collection. *)
Definition page (defs : list Def) : Commands.State :=
  Commands.mk (Data.mk defs [] None) (UI.mk [] "" "" "" "" "" "" "" true)
              None None [] 0.

(** Terms and aliases of a collection are pairwise distinct up to case. *)
Definition names_unique (defs : list Def) : Prop :=
  NoDup (map JS.toLowerCase (all_keys defs)).

(** What staging asks of a parsed array. *)
Definition stageable (payload : list Def) : Prop :=
  payload = [] \/
  exists first rest, payload = first :: rest /\ term first <> "" /\ definition first <> "".

(** What the scan of [getBestSuggestion] holds after a run of keys: nothing
    before the first key, then the first key of least distance to [term],
    with its distance. *)
Definition scanned (term : string) (keys : list string) (best : Data.BestMatch)
    : Prop :=
  (keys = [] /\ best = Data.mkBest None None) \/
  (exists p k, first_min (scan_distance term) keys p k /\
               best = Data.mkBest (Some k) (Some (scan_distance term k))).

(** The invariants of the matrix of [levenshteinDistance]. *)
Module LevSpec.
Import Lev.

(** The value the cell of row [j] and column [i] must hold. *)
Definition target (a b : list ascii) (j i : nat) : nat :=
  lev (rev (take i a)) (rev (take j b)).

Definition dims (a b : list ascii) (m : Matrix) : Prop :=
  length m = S (length b) /\ Forall (fun row => length row = S (length a)) m.

(** The cells selected by [P] hold their target. *)
Definition filled (a b : list ascii) (P : nat -> nat -> Prop) (m : Matrix) : Prop :=
  dims a b m /\
  forall j i, j <= length b -> i <= length a -> P j i -> cell m j i = target a b j i.

End LevSpec.

(** The Validator of the specification, check by check. *)
Module Validator.
Import Commands.

Definition reserved (name : string) : Prop :=
  Exists (same_ci name) RESERVED_COMMANDS.

(** [name] is the term or an alias of an entry other than the excluded one. *)
Definition collides (defs : list Def) (excludeIndex : option nat) (name : string)
    : Prop :=
  Exists (fun p : nat * Def => excludeIndex <> Some p.1 /\ named_ci name p.2)
         (imap (fun index def => (index, def)) defs).

#[global] Instance reserved_dec name : Decision (reserved name).
Proof. unfold reserved. apply _. Defined.

#[global] Instance collides_dec defs excl name : Decision (collides defs excl name).
Proof. unfold collides. apply _. Defined.

Section Checks.
Variables (v : UI.Values) (defs : list Def) (excludeIndex : option nat).
Let term := UI.v_term v.
Let aliases := UI.v_aliases v.

Definition check1 : option Rejection :=
  if decide (term = "" \/ UI.v_definition v = "") then Some RequiredFields else None.

Definition check2 : option Rejection :=
  if decide (reserved term) then Some (ReservedTerm term) else None.

Definition check3 : option Rejection :=
  if JS.includes term "," then Some CommaInTerm else None.

Definition check4 : option Rejection :=
  ReservedAlias <$> head (filter reserved aliases).

Definition check5 : option Rejection :=
  if decide (NoDup (map JS.toLowerCase aliases)) then None else Some DuplicateAliases.

Definition check6 : option Rejection :=
  if decide (Exists (fun alias => same_ci alias term) aliases)
  then Some TermIsAlias else None.

Definition check7 : option Rejection :=
  if decide (collides defs excludeIndex term) then Some (TermExists term)
  else AliasExists <$> head (filter (collides defs excludeIndex) aliases).

Definition check8 : option Rejection :=
  if termRegex_test term
  then if forallb termRegex_test aliases then None else Some AliasesInvalid
  else Some TermInvalid.

Definition check9 : option Rejection :=
  if forallb tagRegex_test (UI.v_tags v) then None else Some TagsInvalid.

(** The first check that fails, in the fixed order. *)
Definition first_failure : option Rejection :=
  foldr (fun check rest => match check with Some r => Some r | None => rest end)
        None
        [check1; check2; check3; check4; check5; check6; check7; check8; check9].

End Checks.
End Validator.

(* ===================================================================== *)
(** * Vocabulary of the further properties *)
(* ===================================================================== *)

(** The code units that open or close markup or an attribute value:
    [<], [>], the double and the single quote. *)
Definition markup_unit (c : ascii) : bool :=
  bool_decide (nat_of_ascii c ∈ [60; 62; 34; 39]).

(** The first code unit a piece of sanitized text stands for, and the rest. *)
Definition decode_head (s : string) : option (ascii * string) :=
  match s with
  | String "&" (String "a" (String "m" (String "p" (String ";" r)))) =>
      Some ("&"%char, r)
  | String "&" (String "l" (String "t" (String ";" r))) => Some ("<"%char, r)
  | String "&" (String "g" (String "t" (String ";" r))) => Some (">"%char, r)
  | String "&" (String "q" (String "u" (String "o" (String "t" (String ";" r))))) =>
      Some (ascii_of_nat 34, r)
  | String "&" (String "#" (String "0" (String "3" (String "9" (String ";" r))))) =>
      Some ("'"%char, r)
  | String c r => Some (c, r)
  | EmptyString => None
  end.

(** [s] does not start with white space. *)
Definition no_lead (s : string) : Prop :=
  match s with String c _ => JS.is_space c = false | EmptyString => True end.

#[global] Instance no_lead_dec s : Decision (no_lead s).
Proof. destruct s; apply _. Defined.

(** A value that survives the comma-separated field of the editor: trimmed,
    not empty, without a comma. *)
Definition listable (a : string) : Prop :=
  JS.trim a = a /\ a <> "" /\ JS.includes a "," = false.

(** The object [saveDefinition] stores for the values of the editor. *)
Definition entry_of (v : UI.Values) : Def :=
  mkDef (UI.v_term v) (Some (UI.v_aliases v)) (Some (UI.v_tags v)) (UI.v_definition v).

(** An entry as the editor makes them: required fields present and trimmed,
    no reserved name, names and tags within their patterns. *)
Definition entry_clean (d : Def) : Prop :=
  term d <> "" /\ definition d <> "" /\
  JS.trim (term d) = term d /\ JS.trim (definition d) = definition d /\
  ~ Validator.reserved (term d) /\
  Commands.termRegex_test (term d) = true /\
  Forall (fun a => ~ Validator.reserved a /\ Commands.termRegex_test a = true /\ JS.trim a = a)
         (aliases_or_empty d) /\
  Forall (fun t => Commands.tagRegex_test t = true) (default [] (tags d)).

#[global] Instance listable_dec a : Decision (listable a).
Proof. unfold listable. apply _. Defined.

#[global] Instance entry_clean_dec d : Decision (entry_clean d).
Proof. unfold entry_clean. apply _. Defined.

(** The invariants of the data model, on a whole collection. *)
Definition well_formed (defs : list Def) : Prop :=
  names_unique defs /\ Forall entry_clean defs.

#[global] Instance well_formed_dec defs : Decision (well_formed defs).
Proof. unfold well_formed, names_unique. apply _. Defined.

(** What the validator has checked when it lets an entry through. *)
Definition passes (v : UI.Values) (defs : list Def) (excl : option nat) : Prop :=
  UI.v_term v <> "" /\ UI.v_definition v <> "" /\
  ~ Validator.reserved (UI.v_term v) /\
  JS.includes (UI.v_term v) "," = false /\
  Forall (fun a => ~ Validator.reserved a) (UI.v_aliases v) /\
  NoDup (map JS.toLowerCase (UI.v_aliases v)) /\
  ~ Exists (fun alias => same_ci alias (UI.v_term v)) (UI.v_aliases v) /\
  ~ Validator.collides defs excl (UI.v_term v) /\
  Forall (fun a => ~ Validator.collides defs excl a) (UI.v_aliases v) /\
  Commands.termRegex_test (UI.v_term v) = true /\
  forallb Commands.termRegex_test (UI.v_aliases v) = true /\
  forallb Commands.tagRegex_test (UI.v_tags v) = true.



(** No command is recorded twice in a row. *)
Definition no_repeat (h : list string) : Prop :=
  forall i x, h !! i = Some x -> h !! S i <> Some x.

(** The words of an input line, as [process] splits it. *)
Definition words (command : string) : list string := JS.split " " (JS.trim command).

(** The entry the editor gives back for [d] when nothing is changed: an
    absent list of aliases or tags comes back as an empty one. *)
Definition resubmitted (d : Def) : Def :=
  mkDef (term d) (Some (aliases_or_empty d)) (Some (default [] (tags d))) (definition d).

(** The command history and the input line of the page. *)
Definition history_of (a : App.State) : list string :=
  Data.commandHistory (Commands.data (App.commands a)).

Definition input_of (a : App.State) : string :=
  UI.commandInput (Commands.ui (App.commands a)).

(** A file the loader turns down. *)
Definition turned_down (content : Commands.FileContent) : Prop :=
  match content with
  | Commands.NoFile => False
  | Commands.Unparsable _ | Commands.NotArray => True
  | Commands.Parsed payload => ~ stageable payload
  end.


(** A closed decidable proposition, settled by evaluating its decision. *)
Ltac by_computation := apply (bool_decide_unpack _); vm_compute; exact I.

(* ===================================================================== *)
(** * The edit distance is the Levenshtein metric *)
(* ===================================================================== *)

Module LevFacts.
Import Lev.

Lemma lev_nil_l b : lev [] b = length b.
Proof. reflexivity. Qed.

Lemma lev_nil_r a : lev a [] = length a.
Proof. destruct a; reflexivity. Qed.

Lemma lev_cons x a y b :
  lev (x :: a) (y :: b) =
  min3 (S (lev a (y :: b))) (S (lev (x :: a) b)) (lev a b + indicator x y).
Proof. reflexivity. Qed.

Lemma indicator_sym x y : indicator x y = indicator y x.
Proof. unfold indicator. repeat case_decide; congruence. Qed.

Lemma indicator_le x y z : indicator x z <= indicator x y + indicator y z.
Proof. unfold indicator. repeat case_decide; try lia. congruence. Qed.

Lemma lev_sym a : forall b, lev a b = lev b a.
Proof.
  induction a as [|x a IHa]; intros b.
  - now rewrite lev_nil_l, lev_nil_r.
  - induction b as [|y b IHb].
    + now rewrite lev_nil_l, lev_nil_r.
    + rewrite !lev_cons, IHb, (IHa (y :: b)), (IHa b), (indicator_sym x y).
      unfold min3. lia.
Qed.

Lemma lev_zero a : forall b, lev a b = 0 <-> a = b.
Proof.
  induction a as [|x a IHa]; intros b.
  - rewrite lev_nil_l. destruct b; simpl; split; intros; try done.
  - destruct b as [|y b].
    + rewrite lev_nil_r. simpl. split; intros; done.
    + rewrite lev_cons. unfold min3, indicator. split.
      * intros H. case_decide; [|lia].
        assert (lev a b = 0) as ->%IHa by lia. by subst.
      * intros [= -> ->]. rewrite decide_True by done.
        assert (lev b b = 0) as -> by by apply IHa. lia.
Qed.

Lemma lev_cons_l_le x a b : lev (x :: a) b <= S (lev a b).
Proof.
  destruct b as [|y b].
  - rewrite !lev_nil_r. simpl. lia.
  - rewrite lev_cons. unfold min3. lia.
Qed.

Lemma lev_cons_r_le y a b : lev a (y :: b) <= S (lev a b).
Proof. rewrite (lev_sym a (y :: b)), (lev_sym a b). apply lev_cons_l_le. Qed.

Lemma lev_length_r a : forall b, length b <= lev a b + length a.
Proof.
  induction a as [|x a IHa]; intros b.
  - rewrite lev_nil_l. lia.
  - induction b as [|y b IHb].
    + cbn [length]. lia.
    + rewrite lev_cons. pose proof (IHa (y :: b)). pose proof (IHa b).
      unfold min3. cbn [length] in *. lia.
Qed.

Lemma lev_length_l a b : length a <= lev a b + length b.
Proof. rewrite lev_sym. apply lev_length_r. Qed.

Lemma lev_le_add a b : lev a b <= length a + length b.
Proof.
  revert b. induction a as [|x a IHa]; intros b.
  - rewrite lev_nil_l. lia.
  - pose proof (lev_cons_l_le x a b). pose proof (IHa b). cbn [length]. lia.
Qed.

Lemma lev_triangle_aux n : forall a b c,
  length a + length b + length c <= n -> lev a c <= lev a b + lev b c.
Proof.
  induction n as [|n IH]; intros a b c Hn.
  - destruct a, b, c; simpl in Hn; lia.
  - destruct a as [|x a].
    { rewrite !lev_nil_l. pose proof (lev_length_r b c). lia. }
    destruct c as [|z c].
    { rewrite !lev_nil_r. pose proof (lev_length_l (x :: a) b). lia. }
    destruct b as [|y b].
    { rewrite lev_nil_r, lev_nil_l. apply lev_le_add. }
    simpl in Hn.
    pose proof (lev_cons_l_le x a (z :: c)) as Hdl.
    pose proof (lev_cons_r_le z (x :: a) c) as Hdr.
    assert (lev (x :: a) (z :: c) <= lev a c + indicator x z) as Hdiag.
    { rewrite lev_cons. unfold min3. lia. }
    pose proof (IH a (y :: b) (z :: c)) as H1.
    pose proof (IH (x :: a) (y :: b) c) as H2.
    pose proof (IH (x :: a) b (z :: c)) as H3.
    pose proof (IH (x :: a) b c) as H4.
    pose proof (IH a b (z :: c)) as H5.
    pose proof (IH a b c) as H6.
    pose proof (indicator_le x y z) as Hind.
    cbn [length] in H1, H2, H3, H4, H5, H6.
    pose proof (lev_cons x a y b) as E1. pose proof (lev_cons y b z c) as E2.
    unfold min3 in E1, E2. lia.
Qed.

(** The triangle inequality, by induction on the three lengths together. *)
Lemma lev_triangle a b c : lev a c <= lev a b + lev b c.
Proof. by apply (lev_triangle_aux (length a + length b + length c)). Qed.

End LevFacts.

Module LevMatrix.
Import Lev LevFacts LevSpec.

Lemma foldl_seq_invariant {A} (Inv : nat -> A -> Prop) (f : A -> nat -> A) len :
  forall start m,
  Inv start m ->
  (forall k m', start <= k < start + len -> Inv k m' -> Inv (S k) (f m' k)) ->
  Inv (start + len) (foldl f m (seq start len)).
Proof.
  induction len as [|len IH]; intros start m H0 Hstep; simpl.
  - by rewrite Nat.add_0_r.
  - replace (start + S len) with (S start + len) by lia.
    apply IH.
    + apply Hstep; [lia | done].
    + intros k m' Hk. apply Hstep. lia.
Qed.

Section Fill.
Variables a b : list ascii.

Lemma dims_new : dims a b (new_matrix (length a) (length b)).
Proof.
  split.
  - unfold new_matrix. by rewrite length_replicate.
  - unfold new_matrix. apply Forall_replicate. by rewrite length_replicate.
Qed.

Lemma dims_set_cell m j i v : dims a b m -> dims a b (set_cell m j i v).
Proof.
  intros [Hlen Hrows]. split.
  - unfold set_cell. by rewrite length_alter.
  - unfold set_cell. apply Forall_alter; [done|].
    intros row _ Hrow. by rewrite length_insert.
Qed.

Lemma cell_set_cell m j i v j' i' :
  dims a b m -> j <= (length b) -> i <= (length a) ->
  cell (set_cell m j i v) j' i' =
  if decide (j = j' /\ i = i') then v else cell m j' i'.
Proof.
  intros [Hlen Hrows] Hj Hi. unfold cell, set_cell.
  destruct (decide (j = j')) as [<-|Hne].
  - rewrite list_lookup_alter_eq.
    destruct (m !! j) as [row|] eqn:Hrow.
    2:{ apply lookup_ge_None in Hrow. lia. }
    simpl.
    assert (length row = S (length a)) as Hlr.
    { rewrite Forall_forall in Hrows. apply Hrows.
      apply list_elem_of_lookup. eauto. }
    destruct (decide (i = i')) as [<-|Hne'].
    + rewrite list_lookup_insert_eq by lia. by rewrite decide_True.
    + rewrite list_lookup_insert_ne by done. rewrite decide_False by tauto. done.
  - rewrite list_lookup_alter_ne by done. by rewrite decide_False by tauto.
Qed.

Lemma filled_weaken (P Q : nat -> nat -> Prop) m :
  filled a b P m ->
  (forall j i, j <= (length b) -> i <= (length a) -> Q j i -> P j i) ->
  filled a b Q m.
Proof. intros [Hd HP] HQ. split; [done|]. intros j i Hj Hi Hq. apply HP; auto. Qed.

(** One assignment [matrix[j][i] = v] with the right value. *)
Lemma filled_set_cell (P Q : nat -> nat -> Prop) m j i v :
  filled a b P m -> j <= (length b) -> i <= (length a) -> v = target a b j i ->
  (forall j' i', j' <= (length b) -> i' <= (length a) -> Q j' i' -> (j' = j /\ i' = i) \/ P j' i') ->
  filled a b Q (set_cell m j i v).
Proof.
  intros [Hd HP] Hj Hi Hv HQ. split; [by apply dims_set_cell|].
  intros j' i' Hj' Hi' Hq. rewrite cell_set_cell by done.
  case_decide as Heq.
  - destruct Heq as [<- <-]. done.
  - destruct (HQ j' i' Hj' Hi' Hq) as [[-> ->]|Hp]; [tauto|]. by apply HP.
Qed.

Lemma target_row0 i : i <= (length a) -> target a b 0 i = i.
Proof.
  intros Hi. unfold target. rewrite take_0. simpl. rewrite lev_nil_r.
  rewrite length_rev, length_take. lia.
Qed.

Lemma target_col0 j : j <= (length b) -> target a b j 0 = j.
Proof.
  intros Hj. unfold target. rewrite take_0. simpl.
  rewrite length_rev, length_take. lia.
Qed.

Lemma target_step j i :
  1 <= j <= (length b) -> 1 <= i <= (length a) ->
  target a b j i =
  min3 (target a b j (i - 1) + 1) (target a b (j - 1) i + 1)
       (target a b (j - 1) (i - 1) + if same_unit a b (i - 1) (j - 1) then 0 else 1).
Proof.
  intros Hj Hi. unfold target.
  destruct j as [|j]; [lia|]. destruct i as [|i]; [lia|].
  replace (S j - 1) with j by lia. replace (S i - 1) with i by lia.
  destruct (lookup_lt_is_Some_2 a i) as [x Hx]; [lia|].
  destruct (lookup_lt_is_Some_2 b j) as [y Hy]; [lia|].
  rewrite (take_S_r a i x Hx), (take_S_r b j y Hy).
  rewrite !rev_unit, lev_cons.
  unfold same_unit. rewrite Hx, Hy. unfold indicator.
  f_equal; [lia| |].
  - lia.
  - destruct (decide (x = y)) as [->|Hne].
    + by rewrite bool_decide_eq_true_2.
    + rewrite bool_decide_eq_false_2; [done|]. congruence.
Qed.

Lemma fill_filled : filled a b (fun _ _ => True) (fill a b).
Proof.
  unfold fill. cbv zeta.
  (* first row *)
  assert (filled a b (fun j i => j = 0) 
            (for_range 0 (length a) (fun m i => set_cell m 0 i i) (new_matrix (length a) (length b)))) as H1.
  { unfold for_range. replace (S (length a) - 0) with (S (length a)) by lia.
    eapply filled_weaken.
    - apply (foldl_seq_invariant (fun k m => filled a b (fun j i => j = 0 /\ i < k) m)
               (fun m i => set_cell m 0 i i) (S (length a)) 0).
      + split; [apply dims_new|]. intros; lia.
      + intros k m' Hk Hm'. eapply filled_set_cell; [exact Hm'|lia|lia| |].
        * symmetry. apply target_row0. lia.
        * intros j' i' _ _ [-> Hlt]. destruct (decide (i' = k)); [left|right]; lia.
    - intros j i _ Hi ->. simpl. lia. }
  (* first column *)
  assert (filled a b (fun j i => j = 0 \/ i = 0)
            (for_range 0 (length b) (fun m j => set_cell m j 0 j)
               (for_range 0 (length a) (fun m i => set_cell m 0 i i) (new_matrix (length a) (length b))))) as H2.
  { unfold for_range at 1. replace (S (length b) - 0) with (S (length b)) by lia.
    eapply filled_weaken.
    - apply (foldl_seq_invariant
               (fun k m => filled a b (fun j i => j = 0 \/ (i = 0 /\ j < k)) m)
               (fun m j => set_cell m j 0 j) (S (length b)) 0).
      + eapply filled_weaken; [exact H1|]. intros j i _ _ [->|[_ ?]]; [done|lia].
      + intros k m' Hk Hm'. eapply filled_set_cell; [exact Hm'|lia|lia| |].
        * symmetry. apply target_col0. lia.
        * intros j' i' _ _ [-> | [-> Hlt]].
          -- right. by left.
          -- destruct (decide (j' = k)); [left|right; right]; lia.
    - intros j i Hj _ [-> | ->]; [by left|]. right. simpl. lia. }
  (* the rows 1 .. b.length *)
  eapply filled_weaken.
  - unfold for_range at 1.
    apply (foldl_seq_invariant
             (fun k m => filled a b (fun j i => i = 0 \/ j < k) m) _ (S (length b) - 1) 1).
    + eapply filled_weaken; [exact H2|]. intros j i _ _ [->|?]; [by right|left; lia].
    + intros k m' Hk Hm'.
      eapply filled_weaken.
      * unfold for_range.
        apply (foldl_seq_invariant
                 (fun c m => filled a b (fun j i => i = 0 \/ j < k \/ (j = k /\ i < c)) m)
                 _ (S (length a) - 1) 1).
        -- eapply filled_weaken; [exact Hm'|]. intros j i _ _ [?|[?|[? ?]]]; [by left|by right|left; lia].
        -- intros c m'' Hc [Hd Hcells].
           eapply filled_set_cell; [exact (conj Hd Hcells)|lia|lia| |].
           ++ rewrite target_step by lia.
              rewrite !Hcells; [done|lia|lia| |lia|lia| |lia|lia|].
              ** destruct (decide (c - 1 = 0)); [left|right; left]; lia.
              ** right; left; lia.
              ** destruct (decide (c - 1 = 0)); [by left|]. right. right. lia.
           ++ intros j' i' _ _ [?|[?|[-> ?]]].
              ** right. by left.
              ** right. right. by left.
              ** destruct (decide (i' = c)); [left; done|right; right; right; lia].
      * intros j i _ Hi [->|Hlt]; [by left|].
        destruct (decide (j = k)); [right; right|right; left]; lia.
  - intros j i Hj _ _. right. lia.
Qed.

(** The matrix code computes the recurrence, read from the ends of the
    two strings. *)
Lemma distance_lev : distance a b = lev (rev a) (rev b).
Proof.
  unfold distance. destruct fill_filled as [_ H].
  rewrite H by (done || lia).
  unfold target. by rewrite !firstn_all.
Qed.

End Fill.
End LevMatrix.

(* ===================================================================== *)
(** * Lookup *)
(* ===================================================================== *)

Lemma append_cons c s t : String c s +:+ t = String c (s +:+ t).
Proof. reflexivity. Qed.

Lemma append_nil t : "" +:+ t = t.
Proof. reflexivity. Qed.

Lemma prefix_spec sub : forall s,
  String.prefix sub s = true <-> exists post, s = sub +:+ post.
Proof.
  induction sub as [|c sub IH]; intros s.
  - destruct s; simpl; (split; [intros _; by eexists|done]).
  - destruct s as [|c' s]; simpl.
    + split; [done|]. by intros [post ?].
    + destruct (Ascii.ascii_dec c c') as [->|Hne].
      * rewrite IH. split; intros [post Hp]; exists post;
          rewrite append_cons in *; congruence.
      * split; [done|]. intros [post Hp]. rewrite append_cons in Hp. congruence.
Qed.

Lemma includes_nil sub : JS.includes "" sub = String.prefix sub "" || false.
Proof. reflexivity. Qed.

Lemma includes_cons c s sub :
  JS.includes (String c s) sub = String.prefix sub (String c s) || JS.includes s sub.
Proof. reflexivity. Qed.

Lemma includes_spec sub : forall s,
  JS.includes s sub = true <-> substring sub s.
Proof.
  induction s as [|c s IH].
  - rewrite includes_nil, orb_false_r, prefix_spec. split.
    + intros [post ->]. by exists "", post.
    + intros [pre [post H]]. destruct pre; [by exists post|].
      rewrite append_cons in H. done.
  - rewrite includes_cons, orb_true_iff, prefix_spec, IH. split.
    + intros [[post ->]|[pre [post ->]]].
      * by exists "", post.
      * by exists (String c pre), post.
    + intros [pre [post H]]. destruct pre as [|c' pre].
      * left. by exists post.
      * right. rewrite append_cons in H. injection H as -> ->. by exists pre, post.
Qed.

Lemma arr_includes_map_lower l q :
  JS.arr_includes (map JS.toLowerCase l) q = true <->
  Exists (fun k => JS.toLowerCase k = q) l.
Proof.
  unfold JS.arr_includes. rewrite bool_decide_eq_true, Exists_exists.
  change (map JS.toLowerCase l) with (JS.toLowerCase <$> l).
  rewrite list_elem_of_fmap. split.
  - intros [k [-> Hk]]. by exists k.
  - intros [k [Hk <-]]. by exists k.
Qed.

Lemma is_exact_spec q d :
  Data.is_exact (JS.toLowerCase q) d = true <-> named_ci q d.
Proof.
  unfold Data.is_exact, named_ci, Data.keys_of, same_ci.
  rewrite orb_true_iff, bool_decide_eq_true, arr_includes_map_lower, Exists_cons.
  done.
Qed.

Lemma is_partial_spec q d :
  Data.is_partial (JS.toLowerCase q) d = true <-> contains_ci q d.
Proof.
  unfold Data.is_partial, contains_ci, Data.keys_of.
  rewrite orb_true_iff, Exists_cons, existsb_exists, Exists_exists.
  apply or_iff_compat_l. split.
  - intros [a [Ha Hi]]. apply in_map_iff in Ha as [k [<- Hk]].
    exists k. split; [by apply list_elem_of_In|done].
  - intros [k [Hk Hs]]. exists (JS.toLowerCase k). split; [|done].
    apply in_map. by apply list_elem_of_In.
Qed.

Lemma names_spec q d :
  Commands.names (JS.toLowerCase q) d = true <-> named_ci q d.
Proof.
  rewrite <- is_exact_spec. unfold Commands.names, Data.is_exact, aliases_or_empty.
  destruct (aliases d); simpl; [done|].
  unfold JS.arr_includes. rewrite !orb_true_iff, !bool_decide_eq_true.
  apply or_iff_compat_l. split; [done|]. intros H. by apply elem_of_nil in H.
Qed.

(** [findIndex] returns the least index whose element passes the test. *)
Lemma findIndex_Some {A} (p : A -> bool) (l : list A) i :
  Commands.findIndex p l = Some i <->
  exists x, l !! i = Some x /\ p x = true /\
            forall j y, j < i -> l !! j = Some y -> p y = false.
Proof.
  revert i. induction l as [|x l IH]; intros i; simpl.
  - split; [done|]. by intros [x [H _]].
  - destruct (p x) eqn:Hp.
    + split.
      * intros [= <-]. exists x. split_and!; [done|done|]. intros; lia.
      * intros [y [Hy [Hpy Hmin]]]. destruct i as [|i]; [done|].
        specialize (Hmin 0 x ltac:(lia) eq_refl). congruence.
    + destruct i as [|i].
      * split.
        -- destruct (Commands.findIndex p l); done.
        -- intros [y [Hy [Hpy _]]]. simpl in Hy. congruence.
      * transitivity (Commands.findIndex p l = Some i).
        { destruct (Commands.findIndex p l); simpl; split; congruence. }
        rewrite IH. split.
        -- intros [y [Hy [Hpy Hmin]]]. exists y. split_and!; [done|done|].
           intros [|j] z Hj Hz; simpl in Hz; [congruence|].
           eapply Hmin; [|done]. lia.
        -- intros [y [Hy [Hpy Hmin]]]. exists y. split_and!; [done|done|].
           intros j z Hj Hz. apply (Hmin (S j) z); [lia|done].
Qed.

Lemma findIndex_None {A} (p : A -> bool) (l : list A) :
  Commands.findIndex p l = None <-> Forall (fun x => p x = false) l.
Proof.
  induction l as [|x l IH]; simpl.
  - split; [by constructor|done].
  - rewrite Forall_cons. destruct (p x) eqn:Hp.
    + split; [done|]. intros [? _]. done.
    + destruct (Commands.findIndex p l); simpl.
      * split; [done|]. intros [_ H]. by apply IH in H.
      * split; [|done]. intros _. split; [done|]. by apply IH.
Qed.

(** The loop of [findMatches], against [findIndex] and [filter]. *)
Lemma findMatches_loop_spec q : forall defs acc,
  Data.findMatches_loop q defs acc =
  match Commands.findIndex (Data.is_exact q) defs with
  | Some i => (defs !! i, acc ++ filter (fun d => Data.is_partial q d = true) (take i defs))
  | None => (None, acc ++ filter (fun d => Data.is_partial q d = true) defs)
  end.
Proof.
  induction defs as [|d defs IH]; intros acc; simpl.
  - by rewrite app_nil_r.
  - destruct (Data.is_exact q d) eqn:He; simpl.
    + by rewrite app_nil_r.
    + destruct (Data.is_partial q d) eqn:Hp; rewrite IH.
      * destruct (Commands.findIndex _ defs) as [i|]; simpl.
        -- rewrite filter_cons_True by done. by rewrite <- app_assoc.
        -- rewrite filter_cons_True by done. by rewrite <- app_assoc.
      * destruct (Commands.findIndex _ defs) as [i|]; simpl.
        -- rewrite filter_cons_False; [done|congruence].
        -- rewrite filter_cons_False; [done|congruence].
Qed.

Lemma filter_ext_bool {A} (p : A -> bool) (P : A -> Prop) `{forall x, Decision (P x)}
    (l : list A) :
  (forall x, p x = true <-> P x) ->
  filter (fun x => p x = true) l = filter P l.
Proof. intros Hp. apply list_filter_iff. intros x. apply Hp. Qed.

Lemma findMatches_none q defs :
  Forall (fun d => ~ named_ci q d) defs ->
  Data.findMatches q defs = Data.mkMatches None (filter (contains_ci q) defs).
Proof.
  intros Hno. unfold Data.findMatches. rewrite findMatches_loop_spec.
  assert (Commands.findIndex (Data.is_exact (JS.toLowerCase q)) defs = None) as ->.
  { apply findIndex_None. eapply Forall_impl; [exact Hno|].
    intros d Hd. simpl in Hd. destruct (Data.is_exact _ d) eqn:E; [|done].
    apply is_exact_spec in E. done. }
  simpl. f_equal. apply filter_ext_bool. intros d. apply is_partial_spec.
Qed.

Lemma findMatches_exact q defs i d :
  defs !! i = Some d -> named_ci q d ->
  (forall j d', j < i -> defs !! j = Some d' -> ~ named_ci q d') ->
  Data.findMatches q defs = Data.mkMatches (Some d) [].
Proof.
  intros Hi Hd Hmin. unfold Data.findMatches. rewrite findMatches_loop_spec.
  assert (Commands.findIndex (Data.is_exact (JS.toLowerCase q)) defs = Some i) as ->.
  { apply findIndex_Some. exists d. split_and!; [done|by apply is_exact_spec|].
    intros j y Hj Hy. destruct (Data.is_exact _ y) eqn:E; [|done].
    apply is_exact_spec in E. destruct (Hmin j y Hj Hy E). }
  by rewrite Hi.
Qed.

(** A list with an element of a decidable property has a first one. *)
Lemma first_with {A} (P : A -> Prop) `{forall x, Decision (P x)} (l : list A) :
  Exists P l ->
  exists i x, l !! i = Some x /\ P x /\ forall j y, j < i -> l !! j = Some y -> ~ P y.
Proof.
  induction l as [|x l IH]; intros Hex.
  - by apply Exists_nil in Hex.
  - destruct (decide (P x)) as [Hx|Hx].
    + exists 0, x. split_and!; [done|done|]. intros; lia.
    + apply Exists_cons in Hex as [?|Hex]; [done|].
      destruct (IH Hex) as [i [y [Hy [Hpy Hmin]]]].
      exists (S i), y. split_and!; [done|done|].
      intros [|j] z Hj Hz; simpl in Hz; [congruence|]. apply (Hmin j); [lia|done].
Qed.

(** C2.  If some definition's term or alias equals the query up to case,
    [find] returns exactly the first such definition in collection order,
    with an empty set of partial matches, whatever the other entries
    contain; and the [find] command then answers with that definition's
    content. *)
Theorem find_exact_first (query : string) (defs : list Def) :
  Exists (named_ci query) defs ->
  exists i d,
    defs !! i = Some d /\ named_ci query d /\
    (forall j d', j < i -> defs !! j = Some d' -> ~ named_ci query d') /\
    Data.findMatches query defs = Data.mkMatches (Some d) [] /\
    (query <> "" ->
     Commands.findDefinition query defs = Commands.formatDefinitionOutput d).
Proof.
  intros Hex. destruct (first_with _ _ Hex) as [i [d [Hi [Hd Hmin]]]].
  exists i, d. split_and!; try done.
  - by eapply findMatches_exact.
  - intros Hq. unfold Commands.findDefinition.
    destruct query; [done|]. simpl negb. cbv iota.
    by erewrite findMatches_exact.
Qed.

Lemma find_exact_first_witness :
  let defs := [mkDef "vectors" None None "several arrows";
               mkDef "vector" (Some ["vec"]) None "an arrow";
               mkDef "VEC" None None "a namesake"] in
  Exists (named_ci "Vec") defs /\
  Data.findMatches "Vec" defs
    = Data.mkMatches (Some (mkDef "vector" (Some ["vec"]) None "an arrow")) [].
Proof.
  intros defs.
  assert (Exists (named_ci "Vec") defs) as Hex by by_computation.
  split; [exact Hex|].
  destruct (find_exact_first "Vec" defs Hex) as [i [d [_ [_ [_ [Hm _]]]]]].
  rewrite Hm. vm_compute in Hm. by injection Hm as <-.
Defined.

(** C9 (as amended).  For every non-empty query with no exact match: if
    exactly one definition's term or alias contains the query up to case,
    [find] returns that definition's formatted content; if two or more do,
    [find] returns the ambiguity listing with the term (not the aliases) of
    every matching definition, in collection order, as many lines as there
    are hits. *)
Theorem find_partial (query : string) (defs : list Def) :
  query <> "" ->
  Forall (fun d => ~ named_ci query d) defs ->
  let hits := filter (contains_ci query) defs in
  (forall d, hits = [d] ->
     Commands.findDefinition query defs = Commands.formatDefinitionOutput d) /\
  (2 <= length hits ->
     Commands.findDefinition query defs =
       mkResult ("Ambiguous term. Did you mean one of these?<br>" +:+
                 JS.join "<br>" (map (fun d => "- " +:+ sanitizeHTML (term d)) hits))
                (Some "text-yellow-400") /\
     length (map (fun d => "- " +:+ sanitizeHTML (term d)) hits) = length hits).
Proof.
  intros Hq Hno hits. unfold Commands.findDefinition.
  destruct query; [done|]. simpl negb. cbv iota.
  rewrite findMatches_none by done. simpl. fold hits. split.
  - intros d ->. done.
  - intros Hlen. destruct hits as [|d1 [|d2 hits']]; simpl in Hlen; try lia.
    split; [done|]. by rewrite length_map.
Qed.

Lemma find_partial_witness :
  let defs := [mkDef "vector" (Some ["arrow"]) None "an arrow";
               mkDef "scalar" None None "a number";
               mkDef "eigenvector" None None "a fixed direction"] in
  "vec" <> "" /\
  Forall (fun d => ~ named_ci "vec" d) defs /\
  Commands.findDefinition "vec" defs =
    mkResult "Ambiguous term. Did you mean one of these?<br>- vector<br>- eigenvector"
             (Some "text-yellow-400") /\
  Commands.findDefinition "scal" defs =
    Commands.formatDefinitionOutput (mkDef "scalar" None None "a number").
Proof.
  intros defs.
  assert (Forall (fun d => ~ named_ci "vec" d) defs) as Hno by by_computation.
  assert (Forall (fun d => ~ named_ci "scal" d) defs) as Hno' by by_computation.
  split; [done|]. split; [exact Hno|]. split.
  - destruct (find_partial "vec" defs ltac:(done) Hno) as [_ H].
    destruct H as [-> _]; [vm_compute; lia|]. reflexivity.
  - destruct (find_partial "scal" defs ltac:(done) Hno') as [H _].
    apply H. reflexivity.
Defined.

(** C9, the claim as it stands, fails on the empty query: every term
    contains it, none equals it, and [find] answers with the usage line. *)
Lemma empty_query_is_a_usage_error :
  let vector := mkDef "vector" None None "an arrow" in
  let scalar := mkDef "scalar" None None "a number" in
  Forall (fun d => ~ named_ci "" d) [vector; scalar] /\
  filter (contains_ci "") [vector] = [vector] /\
  Commands.findDefinition "" [vector] = mkResult "Usage: find [term]" Commands.yellow /\
  Commands.findDefinition "" [vector] <> Commands.formatDefinitionOutput vector /\
  filter (contains_ci "") [vector; scalar] = [vector; scalar] /\
  Commands.findDefinition "" [vector; scalar]
    = mkResult "Usage: find [term]" Commands.yellow.
Proof.
  intros vector scalar. split; [by_computation|].
  split_and!; by vm_compute.
Qed.

(* ===================================================================== *)
(** * Validation *)
(* ===================================================================== *)

Import Commands.

Lemma truthy_false s : JS.truthy s = false <-> s = "".
Proof. destruct s; simpl; split; congruence. Qed.

Lemma reserved_lower : Forall (fun r => JS.toLowerCase r = r) RESERVED_COMMANDS.
Proof. repeat constructor. Qed.

Lemma reserved_spec name :
  JS.arr_includes RESERVED_COMMANDS (JS.toLowerCase name) = true <->
  Validator.reserved name.
Proof.
  unfold JS.arr_includes, Validator.reserved, same_ci.
  rewrite bool_decide_eq_true, Exists_exists. split.
  - intros H. exists (JS.toLowerCase name). split; [done|].
    pose proof reserved_lower as Hl. rewrite Forall_forall in Hl. by rewrite (Hl _ H).
  - intros [r [Hr Heq]].
    pose proof reserved_lower as Hl. rewrite Forall_forall in Hl.
    rewrite Heq, (Hl _ Hr). done.
Qed.

Lemma find_head_filter {A} (p : A -> bool) (P : A -> Prop) `{forall x, Decision (P x)}
    (l : list A) :
  (forall x, p x = true <-> P x) ->
  List.find p l = head (filter P l).
Proof.
  intros Hp. induction l as [|x l IH]; simpl; [done|].
  destruct (p x) eqn:E.
  - rewrite filter_cons_True by by apply Hp. done.
  - rewrite filter_cons_False; [done|]. rewrite <- Hp. congruence.
Qed.

Lemma aliasCollision_spec aliases :
  aliasCollision aliases = head (filter Validator.reserved aliases).
Proof.
  unfold aliasCollision.
  rewrite (find_head_filter _ Validator.reserved) by (intros; apply reserved_spec).
  destruct (head _) as [a|] eqn:E; [|done].
  destruct a; [|done].
  apply head_Some_elem_of in E. apply list_elem_of_filter in E as [E _].
  exfalso. revert E. unfold Validator.reserved, same_ci. rewrite Exists_exists.
  intros [r [Hr Heq]]. simpl in Heq.
  pose proof reserved_lower as Hl. rewrite Forall_forall in Hl.
  rewrite (Hl _ Hr) in Heq. subst r.
  revert Hr. unfold RESERVED_COMMANDS. rewrite !elem_of_cons, elem_of_nil.
  intros H. repeat destruct H as [H|H]; done.
Qed.

Lemma size_list_to_set_le (l : list string) :
  size (list_to_set l : gset string) <= length l.
Proof.
  induction l as [|x l IH].
  - by rewrite list_to_set_nil, size_empty.
  - rewrite list_to_set_cons, length_cons.
    rewrite size_union_alt, size_singleton.
    assert (list_to_set l ∖ {[x]} ⊆ (list_to_set l : gset string)) as Hsub
      by by apply subseteq_difference_l.
    apply subseteq_size in Hsub. lia.
Qed.

Lemma size_list_to_set_NoDup (l : list string) :
  size (list_to_set l : gset string) = length l <-> NoDup l.
Proof.
  split; [|apply size_list_to_set].
  induction l as [|x l IH]; intros Hsz.
  - constructor.
  - rewrite list_to_set_cons, length_cons in Hsz.
    destruct (decide (x ∈ l)) as [Hin|Hnin].
    + exfalso.
      assert ({[x]} ∪ list_to_set l = (list_to_set l : gset string)) as Heq.
      { apply (anti_symm (⊆)); [|set_solver].
        apply union_least; [|done]. apply singleton_subseteq_l.
        by apply elem_of_list_to_set. }
      rewrite Heq in Hsz. pose proof (size_list_to_set_le l). lia.
    + constructor; [done|]. apply IH.
      rewrite size_union in Hsz.
      * rewrite size_singleton in Hsz. lia.
      * apply disjoint_singleton_l. by rewrite elem_of_list_to_set.
Qed.

Lemma inner_fold_spec (x : string) (l : list string) : forall acc : gset string,
  x ∈ foldl (fun (acc : gset string) alias => {[ JS.toLowerCase alias ]} ∪ acc) acc l
  <-> x ∈ acc \/ Exists (fun a => JS.toLowerCase a = x) l.
Proof.
  induction l as [|a l IH]; intros acc; simpl.
  - rewrite Exists_nil. tauto.
  - rewrite IH, Exists_cons, elem_of_union, elem_of_singleton. 
    split; [intros [[->|?]|?]|intros [?|[<-|?]]]; tauto.
Qed.

Lemma others_fold_spec (x : string) (excl : option nat) (defs : list Def) :
  forall (n : nat) (acc : gset string),
  x ∈ foldl (fun (acc : gset string) '(index, def) =>
               if bool_decide (excl = Some index) then acc
               else
                 foldl (fun (acc : gset string) alias => {[ JS.toLowerCase alias ]} ∪ acc)
                       ({[ JS.toLowerCase (term def) ]} ∪ acc)
                       (default [] (aliases def)))
            acc (imap (fun index def => (n + index, def)) defs)
  <-> x ∈ acc \/
      Exists (fun p : nat * Def =>
                excl <> Some p.1 /\ Exists (fun k => JS.toLowerCase k = x) (Data.keys_of p.2))
             (imap (fun index def => (n + index, def)) defs).
Proof.
  induction defs as [|d defs IH]; intros n acc.
  - simpl. rewrite Exists_nil. tauto.
  - rewrite !imap_cons. cbn [foldl].
    assert (imap ((fun index def => (n + index, def)) ∘ S) defs
            = imap (fun index def => (S n + index, def)) defs) as ->.
    { apply imap_ext. intros i y _. simpl. f_equal. lia. }
    rewrite IH, Exists_cons. cbn [fst snd].
    case_bool_decide as Hex.
    + split; [intros [?|?]; tauto|]. intros [?|[[? _]|?]]; [tauto|done|tauto].
    + rewrite inner_fold_spec, elem_of_union, elem_of_singleton.
      change (Data.keys_of d) with (term d :: default [] (aliases d)).
      rewrite Exists_cons. split.
      * intros [[[-> | ?]|?]|?];
          [right; left; split; [done|by left] | by left
          |right; left; split; [done|by right] | by right; right].
      * intros [?|[[_ [<- | ?]]|?]];
          [left; left; by right | left; left; by left | left; by right | by right].
Qed.

Lemma others_spec defs excl name :
  JS.toLowerCase name ∈ allOtherTermsAndAliases defs excl <->
  Validator.collides defs excl name.
Proof.
  unfold allOtherTermsAndAliases, Validator.collides.
  pose proof (others_fold_spec (JS.toLowerCase name) excl defs 0 ∅) as H.
  simpl in H. rewrite H. rewrite elem_of_empty. unfold named_ci, same_ci. tauto.
Qed.

Lemma existsb_negb_forallb {A} (p : A -> bool) l :
  existsb (fun x => negb (p x)) l = negb (forallb p l).
Proof. induction l as [|x l IH]; simpl; [done|]. rewrite IH. by destruct (p x). Qed.

(** The guarded returns of the source report the first failing check of
    the specification's nine. *)
Lemma validate_first_failure v defs excl :
  validate v defs excl = Validator.first_failure v defs excl.
Proof.
  unfold validate, Validator.first_failure. cbn [foldr].
  unfold Validator.check1.
  destruct (decide (UI.v_term v = "" \/ UI.v_definition v = "")) as [H1|H1].
  { assert (negb (JS.truthy (UI.v_term v)) || negb (JS.truthy (UI.v_definition v)) = true) as ->; [|done].
    rewrite orb_true_iff, !negb_true_iff, !truthy_false. done. }
  assert (negb (JS.truthy (UI.v_term v)) || negb (JS.truthy (UI.v_definition v)) = false) as ->.
  { apply not_true_is_false. rewrite orb_true_iff, !negb_true_iff, !truthy_false. done. }
  unfold Validator.check2.
  destruct (decide (Validator.reserved (UI.v_term v))) as [H2|H2].
  { apply reserved_spec in H2. by rewrite H2. }
  assert (JS.arr_includes RESERVED_COMMANDS (JS.toLowerCase (UI.v_term v)) = false) as ->.
  { apply not_true_is_false. by rewrite reserved_spec. }
  unfold Validator.check3.
  destruct (JS.includes (UI.v_term v) ","); [done|].
  unfold Validator.check4. rewrite aliasCollision_spec.
  destruct (head (filter Validator.reserved (UI.v_aliases v))) as [a|]; [done|].
  cbn [fmap option_fmap option_map].
  unfold Validator.check5.
  destruct (decide (NoDup (map JS.toLowerCase (UI.v_aliases v)))) as [H5|H5].
  2:{ assert ((size (list_to_set (map JS.toLowerCase (UI.v_aliases v)) : gset string)
               =? length (UI.v_aliases v)) = false) as ->; [|done].
      apply Nat.eqb_neq. intros Hsz. apply H5, size_list_to_set_NoDup.
      by rewrite length_map. }
  assert ((size (list_to_set (map JS.toLowerCase (UI.v_aliases v)) : gset string)
           =? length (UI.v_aliases v)) = true) as ->.
  { apply Nat.eqb_eq. rewrite <- (length_map JS.toLowerCase).
    by apply size_list_to_set_NoDup. }
  cbn [negb].
  unfold Validator.check6.
  assert (JS.toLowerCase (UI.v_term v) ∈
            (list_to_set (map JS.toLowerCase (UI.v_aliases v)) : gset string)
          <-> Exists (fun alias => same_ci alias (UI.v_term v)) (UI.v_aliases v)) as H6.
  { rewrite elem_of_list_to_set, Exists_exists.
    change (map JS.toLowerCase (UI.v_aliases v)) with (JS.toLowerCase <$> UI.v_aliases v).
    rewrite list_elem_of_fmap. unfold same_ci. split.
    - intros [a [-> Ha]]. by exists a.
    - intros [a [Ha Heq]]. by exists a. }
  destruct (decide (Exists _ (UI.v_aliases v))) as [H6a|H6a].
  { by rewrite bool_decide_eq_true_2 by by apply H6. }
  rewrite bool_decide_eq_false_2 by by rewrite H6.
  unfold Validator.check7.
  destruct (decide (Validator.collides defs excl (UI.v_term v))) as [H7|H7].
  { by rewrite bool_decide_eq_true_2 by by apply others_spec. }
  rewrite bool_decide_eq_false_2 by by rewrite others_spec.
  rewrite (find_head_filter _ (Validator.collides defs excl)).
  2:{ intros a. rewrite bool_decide_eq_true. apply others_spec. }
  destruct (head (filter _ (UI.v_aliases v))) as [a|]; [done|].
  cbn [fmap option_fmap option_map].
  unfold Validator.check8, Validator.check9.
  rewrite !existsb_negb_forallb.
  destruct (termRegex_test (UI.v_term v)); [|done]. cbn [negb].
  destruct (forallb termRegex_test (UI.v_aliases v)); [|done]. cbn [negb].
  by destruct (forallb tagRegex_test (UI.v_tags v)).
Qed.

(* ===================================================================== *)
(** * Suggestion *)
(* ===================================================================== *)

Section Suggestion.
Variable term : string.

Lemma scanned_snoc keys best key :
  scanned term keys best -> scanned term (keys ++ [key]) (Data.score_key term best key).
Proof.
  intros [[-> ->]|[p [k [[Hp [Hmin Hfirst]] ->]]]]; right.
  - exists 0, key. split; [|done]. split_and!; [done| |intros; lia].
    intros [|j] k' Hj; simpl in Hj; [|done]. by injection Hj as <-.
  - unfold Data.score_key, Data.closer. cbn [Data.bm_distance]. fold (scan_distance term key).
    destruct (scan_distance term key <? scan_distance term k) eqn:Hlt.
    + apply Nat.ltb_lt in Hlt. exists (length keys), key. split; [|done]. split_and!.
      * by rewrite lookup_app_r, Nat.sub_diag.
      * intros j k' Hj. apply lookup_app_Some in Hj as [Hj|[_ Hj]].
        -- specialize (Hmin j k' Hj). lia.
        -- apply list_lookup_singleton_Some in Hj as [_ <-]. lia.
      * intros j k' Hlen Hj. rewrite lookup_app_l in Hj by done.
        specialize (Hmin j k' Hj). lia.
    + apply Nat.ltb_ge in Hlt. exists p, k. split; [|done]. split_and!.
      * rewrite lookup_app_l; [done|]. by eapply lookup_lt_Some.
      * intros j k' Hj. apply lookup_app_Some in Hj as [Hj|[_ Hj]].
        -- by eapply Hmin.
        -- by apply list_lookup_singleton_Some in Hj as [_ <-].
      * intros j k' Hlt' Hj. apply (Hfirst j k' Hlt').
        rewrite lookup_app_l in Hj; [done|].
        apply lookup_lt_Some in Hp. lia.
Qed.

Lemma scanned_foldl keys : forall done best,
  scanned term done best ->
  scanned term (done ++ keys) (foldl (Data.score_key term) best keys).
Proof.
  induction keys as [|key keys IH]; intros done best H; simpl.
  - by rewrite app_nil_r.
  - replace (done ++ key :: keys) with ((done ++ [key]) ++ keys)
      by (by rewrite <- app_assoc).
    apply IH. by apply scanned_snoc.
Qed.

Lemma scan_all_keys defs : forall best,
  foldl (fun best def => foldl (Data.score_key term) best (Data.keys_of def)) best defs
  = foldl (Data.score_key term) best (all_keys defs).
Proof.
  induction defs as [|d defs IH]; intros best; [done|].
  unfold all_keys. cbn [foldl map concat]. rewrite foldl_app. apply IH.
Qed.

Lemma scan_scanned defs : scanned term (all_keys defs) (Data.scan term defs).
Proof.
  unfold Data.scan. rewrite scan_all_keys.
  apply (scanned_foldl (all_keys defs) []). by left.
Qed.

(** The first key of least distance is unique. *)
Lemma first_min_unique keys p k p' k' :
  first_min (scan_distance term) keys p k -> first_min (scan_distance term) keys p' k' -> p = p' /\ k = k'.
Proof.
  intros [Hp [Hmin Hfirst]] [Hp' [Hmin' Hfirst']].
  assert (p = p') as <-.
  { destruct (Nat.lt_trichotomy p p') as [Hlt|[?|Hlt]]; [|done|].
    - specialize (Hfirst' p k Hlt Hp). specialize (Hmin p' k' Hp'). lia.
    - specialize (Hfirst p' k' Hlt Hp'). specialize (Hmin' p k Hp). lia. }
  split; [done|]. congruence.
Qed.

Lemma getBestSuggestion_first_min defs p k :
  first_min (scan_distance term) (all_keys defs) p k ->
  Data.getBestSuggestion term defs =
  if decide (scan_distance term k <= Data.SUGGESTION_THRESHOLD) then Some k else None.
Proof.
  intros Hfm. unfold Data.getBestSuggestion.
  destruct (scan_scanned defs) as [[Hnil _]|[p' [k' [Hfm' ->]]]].
  - destruct Hfm as [Hp _]. rewrite Hnil in Hp. done.
  - destruct (first_min_unique _ _ _ _ _ Hfm Hfm') as [_ <-].
    cbn [Data.bm_distance Data.bm_term].
    case_decide as Hle.
    + apply Nat.leb_le in Hle. by rewrite Hle.
    + apply Nat.leb_nle in Hle. by rewrite Hle.
Qed.

Lemma getBestSuggestion_no_keys defs :
  all_keys defs = [] -> Data.getBestSuggestion term defs = None.
Proof.
  intros Hnil. unfold Data.getBestSuggestion.
  destruct (scan_scanned defs) as [[_ ->]|[p [k [[Hp _] _]]]]; [done|].
  rewrite Hnil in Hp. done.
Qed.

Lemma first_min_exists keys :
  keys <> [] -> exists p k, first_min (scan_distance term) keys p k.
Proof.
  intros Hne.
  destruct (scanned_foldl keys [] (Data.mkBest None None)) as [[? _]|[p [k [H _]]]];
    [by left|done|by exists p, k].
Qed.

End Suggestion.

Lemma all_keys_nil defs : all_keys defs = [] <-> defs = [].
Proof. destruct defs; [done|]. split; discriminate. Qed.

Lemma findMatches_no_hit q defs :
  Forall (fun d => ~ named_ci q d) defs ->
  Forall (fun d => ~ contains_ci q d) defs ->
  Data.findMatches q defs = Data.mkMatches None [].
Proof.
  intros Hno Hnc. rewrite findMatches_none by done. f_equal.
  induction Hnc as [|d defs Hd _ IH]; [done|].
  apply Forall_cons in Hno as [_ Hno].
  rewrite filter_cons_False by done. by apply IH.
Qed.

Lemma findDefinition_no_hit q defs :
  q <> "" ->
  Forall (fun d => ~ named_ci q d) defs ->
  Forall (fun d => ~ contains_ci q d) defs ->
  Commands.findDefinition q defs =
  mkResult (Commands.not_found_message q
              (Data.getBestSuggestion (JS.toLowerCase q) defs))
           Commands.red.
Proof.
  intros Hq Hno Hnc. unfold Commands.findDefinition.
  destruct q; [done|]. simpl negb. cbv iota.
  by rewrite findMatches_no_hit.
Qed.

Lemma includes_empty s : JS.includes s "" = true.
Proof. destruct s; reflexivity. Qed.

Lemma contains_ci_empty d : contains_ci "" d.
Proof. unfold contains_ci, Data.keys_of. apply Exists_cons_hd, includes_empty. Qed.

(** C5 (as amended).  When [find] has no exact and no partial match, the
    candidate is the term-or-alias of least Levenshtein distance to the
    lower-cased query, every term scored before its own aliases, definitions
    in collection order, the first-encountered one kept on ties.  It is
    offered as a suggestion if and only if that least distance is at most 3
    and the candidate is not the empty string; on an empty collection
    nothing is offered. *)
Theorem find_suggestion (query : string) (defs : list Def) :
  Forall (fun d => ~ named_ci query d) defs ->
  Forall (fun d => ~ contains_ci query d) defs ->
  (defs = [] ->
   Commands.findDefinition query defs =
     if decide (query = "") then mkResult "Usage: find [term]" Commands.yellow
     else not_found query) /\
  (defs <> [] -> exists p k, first_min (key_distance query) (all_keys defs) p k) /\
  (forall p k,
     first_min (key_distance query) (all_keys defs) p k ->
     Data.getBestSuggestion (JS.toLowerCase query) defs =
       (if decide (key_distance query k <= 3) then Some k else None) /\
     Commands.findDefinition query defs =
       if decide (key_distance query k <= 3 /\ k <> "")
       then not_found_suggesting query k
       else not_found query).
Proof.
  intros Hno Hnc. split_and!.
  - intros ->. by destruct query.
  - intros Hne. apply first_min_exists. by rewrite all_keys_nil.
  - intros p k Hfm.
    assert (query <> "") as Hq.
    { intros ->. destruct defs as [|d defs].
      - by destruct Hfm as [Hp _].
      - apply Forall_cons in Hnc as [Hd _]. apply Hd, contains_ci_empty. }
    rewrite findDefinition_no_hit by done.
    pose proof (getBestSuggestion_first_min (JS.toLowerCase query) defs p k Hfm) as Hbest.
    split; [exact Hbest|]. rewrite Hbest. unfold Data.SUGGESTION_THRESHOLD.
    fold (key_distance query k).
    destruct (decide (key_distance query k <= 3)) as [Hle|Hgt].
    + destruct k as [|c k].
      * rewrite decide_False by tauto. done.
      * rewrite decide_True by done. done.
    + rewrite decide_False by tauto. done.
Qed.

Lemma find_suggestion_witness :
  let query := "vecot" in
  let defs := [mkDef "vector" (Some ["vec"]) None "an arrow"] in
  Forall (fun d => ~ named_ci query d) defs /\
  Forall (fun d => ~ contains_ci query d) defs /\
  first_min (key_distance query) (all_keys defs) 0 "vector" /\
  Commands.findDefinition query defs = not_found_suggesting query "vector".
Proof.
  intros query defs.
  assert (Forall (fun d => ~ named_ci query d) defs) as H1 by by_computation.
  assert (Forall (fun d => ~ contains_ci query d) defs) as H2 by by_computation.
  assert (first_min (key_distance query) (all_keys defs) 0 "vector") as H3.
  { split_and!; [done| |intros; lia].
    intros [|[|j]] k' Hj; vm_compute in Hj; [| |done];
      injection Hj as <-; vm_compute; lia. }
  split; [exact H1|]. split; [exact H2|]. split; [exact H3|].
  destruct (find_suggestion query defs H1 H2) as [_ [_ H]].
  destruct (H 0 "vector" H3) as [_ ->]. reflexivity.
Defined.

(** C5, the claim as it stands, fails: an empty alias is the closest
    candidate, at distance 2, and no suggestion is offered. *)
Lemma suggestion_withheld_for_empty_key :
  let defs := [mkDef "zzzzzzzz" (Some [""]) None "x"] in
  Data.findMatches "ab" defs = Data.mkMatches None [] /\
  first_min (key_distance "ab") (all_keys defs) 1 "" /\
  key_distance "ab" "" = 2 /\
  Commands.findDefinition "ab" defs = not_found "ab" /\
  (forall key, Commands.findDefinition "ab" defs <> not_found_suggesting "ab" key).
Proof.
  split_and!; try reflexivity.
  - split_and!; [done| |].
    + intros [|[|j]] k' Hj; vm_compute in Hj; try done;
        injection Hj as <-; vm_compute; lia.
    + intros [|[|j]] k' Hlt Hj; try lia. vm_compute in Hj.
      injection Hj as <-. vm_compute. lia.
  - intros key. vm_compute. discriminate.
Qed.

(* ===================================================================== *)
(** * Claims on the edit distance and on validation *)
(* ===================================================================== *)

Lemma levenshteinDistance_lev a b :
  levenshteinDistance a b =
  Lev.lev (rev (list_ascii_of_string a)) (rev (list_ascii_of_string b)).
Proof. apply LevMatrix.distance_lev. Qed.

Lemma list_ascii_of_string_inj a b :
  list_ascii_of_string a = list_ascii_of_string b -> a = b.
Proof.
  intros H. rewrite <- (string_of_list_ascii_of_string a),
    <- (string_of_list_ascii_of_string b). by rewrite H.
Qed.

(** C8.  The implemented Levenshtein distance is symmetric, is zero exactly
    between equal strings, and satisfies the triangle inequality. *)
Theorem levenshteinDistance_metric :
  (forall a b, levenshteinDistance a b = levenshteinDistance b a) /\
  (forall a b, levenshteinDistance a b = 0 <-> a = b) /\
  (forall a b c,
     levenshteinDistance a c <= levenshteinDistance a b + levenshteinDistance b c).
Proof.
  split_and!.
  - intros a b. rewrite !levenshteinDistance_lev. apply LevFacts.lev_sym.
  - intros a b. rewrite levenshteinDistance_lev, LevFacts.lev_zero. split.
    + intros H. apply list_ascii_of_string_inj.
      rewrite <- (rev_involutive (list_ascii_of_string a)), H.
      apply rev_involutive.
    + by intros ->.
  - intros a b c. rewrite !levenshteinDistance_lev. apply LevFacts.lev_triangle.
Qed.

Lemma collides_other defs excl name :
  Validator.collides defs excl name ->
  exists j d, defs !! j = Some d /\ excl <> Some j /\ named_ci name d.
Proof.
  unfold Validator.collides. rewrite Exists_exists.
  intros [[j d] [Hin [Hne Hnamed]]]. apply list_elem_of_lookup in Hin as [i Hi].
  rewrite list_lookup_imap in Hi.
  destruct (defs !! i) as [d'|] eqn:Hd; simpl in Hi; [|done].
  injection Hi as <- <-. by exists i, d'.
Qed.

Lemma validate_reports_first_failure (s : Commands.State) r :
  Validator.first_failure (UI.getEditorValues (ui s)) (Data.definitions (data s))
                          (currentEditIndex s) = Some r ->
  saveDefinition s = Some (with_ui (UI.setEditorMessage (message r) (ui s)) s).
Proof.
  intros H. unfold saveDefinition. by rewrite validate_first_failure, H.
Qed.

(** C3 (as amended).  [saveDefinition] validates the candidate by the nine
    checks in the fixed order of the specification, and the first failing
    check determines the rejection it reports.  Resubmitting an entry's own
    unchanged term during an edit session does not trigger the
    term-already-exists failure when no other entry has a term or alias
    equal to it up to case. *)
Theorem saveDefinition_validation (v : UI.Values) (defs : list Def)
    (excludeIndex : option nat) :
  validate v defs excludeIndex = Validator.first_failure v defs excludeIndex /\
  (forall s r,
     Validator.first_failure (UI.getEditorValues (ui s))
       (Data.definitions (data s)) (currentEditIndex s) = Some r ->
     saveDefinition s = Some (with_ui (UI.setEditorMessage (message r) (ui s)) s)) /\
  (forall index d,
     excludeIndex = Some index ->
     defs !! index = Some d ->
     UI.v_term v = term d ->
     (forall j d', j <> index -> defs !! j = Some d' -> ~ named_ci (term d) d') ->
     forall t, validate v defs excludeIndex <> Some (TermExists t)).
Proof.
  split_and!.
  - apply validate_first_failure.
  - apply validate_reports_first_failure.
  - intros index d -> Hd Hterm Hothers t Hrej.
    rewrite validate_first_failure in Hrej.
    unfold Validator.first_failure in Hrej. cbn [foldr] in Hrej.
    assert (Validator.check7 v defs (Some index) = Some (TermExists t)) as H7.
    { repeat match type of Hrej with
             | match ?c with Some _ => _ | None => _ end = _ =>
                 let E := fresh "E" in destruct c eqn:E
             end; try done.
      all: try (injection Hrej as ->).
      - unfold Validator.check1 in *. by case_decide.
      - unfold Validator.check2 in *. by case_decide.
      - unfold Validator.check3 in *. by destruct (JS.includes _ _).
      - unfold Validator.check4 in *. by destruct (head _).
      - unfold Validator.check5 in *. by case_decide.
      - unfold Validator.check6 in *. by case_decide.
      - unfold Validator.check8 in *.
        destruct (termRegex_test _); [|done]. by destruct (forallb _ _).
      - unfold Validator.check9 in *. by destruct (forallb _ _). }
    unfold Validator.check7 in H7.
    destruct (decide (Validator.collides defs (Some index) (UI.v_term v))) as [Hc|Hc].
    + apply collides_other in Hc as [j [d' [Hj [Hne Hnamed]]]].
      apply (Hothers j d'); [congruence|done|]. by rewrite <- Hterm.
    + by destruct (head _).
Qed.

Lemma saveDefinition_validation_witness :
  let defs := [mkDef "alpha" (Some ["a1"]) (Some []) "first";
               mkDef "beta" (Some []) (Some []) "second"] in
  let v := UI.mkValues "alpha" ["a1"] [] "first, revised" in
  validate v defs (Some 0) = Validator.first_failure v defs (Some 0) /\
  forall t, validate v defs (Some 0) <> Some (TermExists t).
Proof.
  intros defs v.
  destruct (saveDefinition_validation v defs (Some 0)) as [H1 [_ H3]].
  split; [exact H1|].
  apply (H3 0 (mkDef "alpha" (Some ["a1"]) (Some []) "first")); [done|done|done|].
  intros [|[|j]] d' Hj Hd'; [done| |done].
  injection Hd' as <-. by_computation.
Defined.

(** C3, the claim as it stands, fails: with two entries that differ only in
    case, editing the first and saving it unchanged is rejected with the
    already-exists message. *)
Lemma own_term_rejected_beside_a_duplicate :
  let defs := [mkDef "a" None None "x"; mkDef "A" None None "y"] in
  let editing := process "edit a" (page defs) in
  currentEditIndex editing = Some 0 /\
  UI.getEditorValues (ui editing) = UI.mkValues "a" [] [] "x" /\
  validate (UI.getEditorValues (ui editing)) defs (Some 0) = Some (TermExists "a") /\
  (UI.editorMessage <$> (ui <$> saveDefinition editing))
    = Some "Error: Term 'a' already exists.".
Proof. by vm_compute. Qed.

(* ===================================================================== *)
(** * Deletion and import *)
(* ===================================================================== *)

Lemma findDefinitionAndIndex_resolves t defs index d :
  resolves defs t index d -> findDefinitionAndIndex t defs = Some (d, index).
Proof.
  intros [Hd [Hnamed Hfirst]]. unfold findDefinitionAndIndex.
  assert (findIndex (names (JS.toLowerCase t)) defs = Some index) as ->.
  { apply findIndex_Some. exists d. split_and!; [done|by apply names_spec|].
    intros j y Hj Hy. destruct (names _ y) eqn:E; [|done].
    apply names_spec in E. destruct (Hfirst j y Hj Hy E). }
  by rewrite Hd.
Qed.

Lemma findDefinitionAndIndex_unresolved t defs :
  unresolved defs t -> findDefinitionAndIndex t defs = None.
Proof.
  intros Hno. unfold findDefinitionAndIndex.
  assert (findIndex (names (JS.toLowerCase t)) defs = None) as ->; [|done].
  apply findIndex_None. eapply Forall_impl; [exact Hno|].
  intros d Hd. simpl in Hd. destruct (names _ d) eqn:E; [|done].
  by apply names_spec in E.
Qed.

(** Every term either resolves or is unresolved. *)
Lemma resolves_or_unresolved defs t :
  unresolved defs t \/ exists index d, resolves defs t index d.
Proof.
  destruct (decide (Exists (named_ci t) defs)) as [Hex|Hno].
  - right. destruct (first_with _ _ Hex) as [i [d H]]. by exists i, d.
  - left. apply Forall_forall. intros d Hin Hn. apply Hno, Exists_exists. eauto.
Qed.

Lemma arr_includes_true l x : JS.arr_includes l x = true <-> x ∈ l.
Proof. unfold JS.arr_includes. apply bool_decide_eq_true. Qed.

Lemma arr_includes_false l x : JS.arr_includes l x = false <-> x ∉ l.
Proof. unfold JS.arr_includes. apply bool_decide_eq_false. Qed.

(** C4.  [delete] without the confirmation flag, on a term that resolves,
    changes nothing and returns the confirmation prompt; with the flag it
    removes the resolved entry, the collection shrinking by exactly one,
    and persists; a term that does not resolve is reported not found with
    or without the flag; a missing term argument is a usage error. *)
Theorem deleteTerm_two_phase (args : list string) (d : Data.t) :
  let t := term_argument args in
  let defs := Data.definitions d in
  (t = "" -> deleteTerm args d = (mkResult "Usage: delete [term]" yellow, d)) /\
  (t <> "" -> unresolved defs t ->
   deleteTerm args d =
     (mkResult ("Error: Term '" +:+ sanitizeHTML t +:+ "' not found.") red, d)) /\
  (forall index entry,
     t <> "" -> resolves defs t index entry ->
     (confirmFlag ∉ args ->
      deleteTerm args d =
        (mkResult ("This is a destructive action. To confirm, type: <br><span class="
                   +:+ quoted "font-bold" +:+ ">delete " +:+ sanitizeHTML t
                   +:+ " " +:+ confirmFlag +:+ "</span>") yellow,
         d)) /\
     (confirmFlag ∈ args ->
      deleteTerm args d =
        (mkResult ("Definition for '" +:+ sanitizeHTML (term entry)
                   +:+ "' has been deleted.") green,
         Data.mk (delete index defs) (Data.commandHistory d)
                 (Some (delete index defs))) /\
      length (delete index defs) + 1 = length defs /\
      forall j, delete index defs !! j =
                if decide (j < index) then defs !! j else defs !! S j)).
Proof.
  intros t defs. unfold deleteTerm. fold (term_argument args). fold t. fold defs.
  split_and!.
  - intros ->. done.
  - intros Ht Hun. destruct t; [done|]. cbn [JS.truthy negb].
    by rewrite findDefinitionAndIndex_unresolved.
  - intros index entry Ht Hres. destruct t eqn:Et; [done|]. cbn [JS.truthy negb].
    rewrite (findDefinitionAndIndex_resolves _ _ _ _ Hres). split.
    + intros Hflag. apply arr_includes_false in Hflag. by rewrite Hflag.
    + intros Hflag. apply arr_includes_true in Hflag. rewrite Hflag. cbn [negb].
      destruct Hres as [Hd _]. split_and!.
      * done.
      * rewrite length_delete by eauto. apply lookup_lt_Some in Hd. lia.
      * intros j. case_decide.
        -- by apply list_lookup_delete_lt.
        -- apply list_lookup_delete_ge. lia.
Qed.

Lemma deleteTerm_two_phase_witness :
  let d := Data.mk [mkDef "vector" (Some ["vec"]) None "an arrow";
                    mkDef "scalar" None None "a number"] [] None in
  term_argument ["rm"; "Vec"; "--confirm"] = "Vec" /\
  resolves (Data.definitions d) "Vec" 0 (mkDef "vector" (Some ["vec"]) None "an arrow") /\
  Data.definitions (deleteTerm ["rm"; "Vec"; "--confirm"] d).2
    = [mkDef "scalar" None None "a number"] /\
  (deleteTerm ["rm"; "Vec"] d).2 = d.
Proof.
  intros d.
  assert (resolves (Data.definitions d) "Vec" 0
            (mkDef "vector" (Some ["vec"]) None "an arrow")) as Hres.
  { split_and!; [done|by_computation|intros; lia]. }
  split; [done|]. split; [exact Hres|].
  destruct (deleteTerm_two_phase ["rm"; "Vec"; "--confirm"] d) as [_ [_ H]].
  destruct (H 0 _ ltac:(done) Hres) as [_ Hyes].
  destruct (deleteTerm_two_phase ["rm"; "Vec"] d) as [_ [_ H']].
  destruct (H' 0 _ ltac:(done) Hres) as [Hno _].
  split.
  - destruct Hyes as [-> _]; [by_computation|done].
  - rewrite Hno; [done|by_computation].
Defined.

(** What [import --confirm] does with a staged payload. *)
Lemma importDefinitions_staged (args : list string) (s : Commands.State) pending :
  "--confirm" ∈ args ->
  pendingImportData s = Some pending ->
  importDefinitions args s =
    (mkResult "Definitions successfully imported and saved." green,
     Commands.mk (Data.mk pending (Data.commandHistory (data s)) (Some pending))
                 (ui s) (currentEditIndex s) None (downloads s) (fileDialogs s)).
Proof.
  intros Hflag Hp. apply arr_includes_true in Hflag.
  unfold importDefinitions. by rewrite Hflag, Hp.
Qed.

(** C6.  [import --confirm] with a staged payload replaces the whole live
    collection with exactly that payload, persists it and clears the buffer;
    with nothing staged it reports that no file is loaded and leaves the
    collection and the buffer as they were. *)
Theorem import_confirm (args : list string) (s : Commands.State) :
  "--confirm" ∈ args ->
  (forall pending,
     pendingImportData s = Some pending ->
     importDefinitions args s =
       (mkResult "Definitions successfully imported and saved." green,
        Commands.mk (Data.mk pending (Data.commandHistory (data s)) (Some pending))
                    (ui s) (currentEditIndex s) None (downloads s) (fileDialogs s))) /\
  (pendingImportData s = None ->
   importDefinitions args s =
     (mkResult "No file loaded. Please run 'import' first." yellow, s)).
Proof.
  intros Hflag. split.
  - intros pending Hp. by apply importDefinitions_staged.
  - intros Hp. apply arr_includes_true in Hflag.
    unfold importDefinitions. by rewrite Hflag, Hp.
Qed.

Lemma import_confirm_witness :
  let staged := [mkDef "vector" None None "an arrow"] in
  let s := with_pendingImportData (Some staged)
             (page [mkDef "scalar" None None "a number"]) in
  "--confirm" ∈ ["import"; "--confirm"] /\
  Data.definitions (data (importDefinitions ["import"; "--confirm"] s).2) = staged /\
  (importDefinitions ["import"; "--confirm"] (page [])).2 = page [].
Proof.
  intros staged s.
  assert ("--confirm" ∈ ["import"; "--confirm"]) as Hflag by by_computation.
  split; [exact Hflag|]. split.
  - destruct (import_confirm ["import"; "--confirm"] s Hflag) as [H _].
    by rewrite (H staged).
  - destruct (import_confirm ["import"; "--confirm"] (page []) Hflag) as [_ H].
    by rewrite H.
Defined.

Lemma first_lacks_fields_spec payload :
  first_lacks_fields payload = false <-> stageable payload.
Proof.
  unfold stageable. destruct payload as [|first rest]; simpl.
  - split; [by left|done].
  - rewrite orb_false_iff, !negb_false_iff. split.
    + intros [Ht Hd]. right. exists first, rest.
      destruct (term first), (definition first); done.
    + intros [?|[f [r [[= <- <-] [Ht Hd]]]]]; [done|].
      destruct (term first), (definition first); done.
Qed.

Lemma reader_onload_staged content s payload :
  content <> NoFile ->
  pendingImportData (reader_onload content s) = Some payload <->
  content = Parsed payload /\ stageable payload.
Proof.
  intros Hfile. rewrite <- first_lacks_fields_spec.
  destruct content as [|msg| |data]; [done| | |]; cbn [reader_onload].
  - split; [done|]. by intros [? _].
  - split; [done|]. by intros [? _].
  - destruct (first_lacks_fields data) eqn:E; cbn.
    + split; [done|]. intros [[= ->] ?]. congruence.
    + split; [by intros [= ->]|]. by intros [[= ->] _].
Qed.

(** C10.  The confirm step installs the staged payload as it is, with no
    check of the Validator on its entries: staging accepts exactly the
    arrays that are empty or whose first element has a truthy term and a
    truthy definition, and after [import --confirm] the collection is that
    array.  So a collection with duplicate names, with a reserved term, with
    a term outside the identifier pattern, or with an empty body in a later
    element can be installed. *)
Theorem import_installs_unvalidated :
  (forall content s payload,
     content <> NoFile ->
     pendingImportData (reader_onload content s) = Some payload <->
     content = Parsed payload /\ stageable payload) /\
  (forall payload s args,
     stageable payload ->
     "--confirm" ∈ args ->
     Data.definitions
       (data (importDefinitions args (reader_onload (Parsed payload) s)).2)
     = payload) /\
  (exists payload,
     stageable payload /\
     ~ names_unique payload /\
     Exists (fun d => Validator.reserved (term d)) payload /\
     Exists (fun d => termRegex_test (term d) = false) payload /\
     Exists (fun d => definition d = "") (drop 1 payload)).
Proof.
  split_and!.
  - apply reader_onload_staged.
  - intros payload s args Hok Hflag.
    assert (pendingImportData (reader_onload (Parsed payload) s) = Some payload) as Hst
      by by apply reader_onload_staged.
    by rewrite (importDefinitions_staged _ _ _ Hflag Hst).
  - exists [mkDef "alpha" (Some ["ALPHA"]) None "a letter";
            mkDef "Alpha" None None "";
            mkDef "help" None None "a command";
            mkDef "a,b" None None "a pair"].
    split.
    + right. by eexists _, _.
    + split; [by_computation|]. split_and!; by_computation.
Qed.

Lemma import_installs_unvalidated_witness :
  let payload := [mkDef "help" None None "a command"; mkDef "HELP" None None ""] in
  stageable payload /\
  "--confirm" ∈ ["import"; "--confirm"] /\
  Data.definitions
    (data (importDefinitions ["import"; "--confirm"]
             (reader_onload (Parsed payload) (page []))).2)
  = payload.
Proof.
  intros payload.
  assert (stageable payload) as H1 by (right; by eexists _, _).
  assert ("--confirm" ∈ ["import"; "--confirm"]) as H2 by by_computation.
  split; [exact H1|]. split; [exact H2|].
  destruct import_installs_unvalidated as [_ [H _]].
  exact (H payload (page []) ["import"; "--confirm"] H1 H2).
Defined.

(* ===================================================================== *)
(** * Command history *)
(* ===================================================================== *)

Lemma deleteTerm_history args d :
  Data.commandHistory (deleteTerm args d).2 = Data.commandHistory d.
Proof.
  unfold deleteTerm. destruct (negb (JS.truthy _)); [done|].
  destruct (findDefinitionAndIndex _ _) as [[definition index]|]; [|done].
  by destruct (negb (JS.arr_includes _ _)).
Qed.

Lemma importDefinitions_history args s :
  Data.commandHistory (data (importDefinitions args s).2)
  = Data.commandHistory (data s).
Proof.
  unfold importDefinitions. destruct (JS.arr_includes _ _); [|done].
  by destruct (pendingImportData s).
Qed.

(** Only [clear] touches the command history, and it empties it. *)
Lemma process_history command s :
  Data.commandHistory (data (process command s)) =
  if bool_decide (base_command command = "clear") then []
  else Data.commandHistory (data s).
Proof.
  unfold process, base_command.
  generalize (JS.toLowerCase (default "" (head (JS.split " " (JS.trim command))))).
  intros base.
  destruct (decide (base = "help")) as [->|Hhelp]; [done|].
  rewrite (bool_decide_eq_false_2 (base = "help")) by done.
  destruct (decide (base = "clear")) as [->|Hclear]; [done|].
  rewrite !(bool_decide_eq_false_2 (base = "clear")) by done.
  destruct (bool_decide (base = "ls") || bool_decide (base = "list")).
  { by destruct (listTerms _ _). }
  destruct (bool_decide (base = "add")); [done|].
  destruct (bool_decide (base = "edit")).
  { destruct (negb (JS.truthy _)); [done|].
    by destruct (findDefinitionAndIndex _ _) as [[definition index]|]. }
  destruct (bool_decide (base = "rm") || bool_decide (base = "delete")).
  { pose proof (deleteTerm_history (JS.split " " (JS.trim command)) (data s)) as H.
    by destruct (deleteTerm _ _). }
  destruct (bool_decide (base = "find")); [done|].
  destruct (bool_decide (base = "export")); [done|].
  destruct (bool_decide (base = "import")); [|done].
  pose proof (importDefinitions_history (JS.split " " (JS.trim command)) s) as H.
  by destruct (importDefinitions _ _).
Qed.


(** With the cursor at the end, the next recall blanks the input line. *)
Lemma recallNext_at_end_is_blank a :
  App.historyIndex a
  = Z.of_nat (length (Data.commandHistory (data (App.commands a)))) ->
  let a' := App.handleTerminalInput App.ArrowDown a in
  UI.commandInput (ui (App.commands a')) = "" /\
  App.historyIndex a' = App.historyIndex a.
Proof.
  intros H. cbn [App.handleTerminalInput].
  destruct (App.historyIndex a <? _)%Z eqn:E; [apply Z.ltb_lt in E; lia|].
  cbn. by rewrite H.
Qed.

(** After the execution of any command but [clear], the cursor is the
    length of the history. *)
Lemma enter_resets_cursor a :
  let command := JS.trim (UI.commandInput (ui (App.commands a))) in
  command <> "" ->
  base_command command <> "clear" ->
  let a' := App.handleTerminalInput App.Enter a in
  App.historyIndex a'
  = Z.of_nat (length (Data.commandHistory (data (App.commands a')))).
Proof.
  intros command Hne Hbase. cbn [App.handleTerminalInput]. fold command.
  destruct command eqn:Ec; [done|]. cbn [JS.truthy]. rewrite <- Ec in *.
  cbn [App.historyIndex App.commands App.set_input with_ui data].
  rewrite process_history, bool_decide_eq_false_2 by done.
  done.
Qed.

(** C7, at the failing input.  With the history holding one command and
    the cursor at its end, typing [clear] and Enter empties the history and
    leaves the cursor at 2, outside the history; the next ArrowUp then
    recalls an element that does not exist.  Before the first key, the
    cursor is -1. *)
Theorem clear_leaves_cursor_outside_history :
  let before :=
    App.mk (App.set_input "clear"
              (with_data (Data.mk [] ["help"] None) (page []))) 1 in
  let after := App.handleTerminalInput App.Enter before in
  cursor_in_bounds before /\
  Data.commandHistory (data (App.commands after)) = [] /\
  App.historyIndex after = 2%Z /\
  ~ cursor_in_bounds after /\
  UI.commandInput (ui (App.commands (App.handleTerminalInput App.ArrowUp after)))
    = "undefined" /\
  App.historyIndex (App.initialize [] (App.start None)) = (-1)%Z /\
  ~ cursor_in_bounds (App.initialize [] (App.start None)).
Proof.
  intros before after.
  split; [by_computation|]. split; [by vm_compute|]. split; [by vm_compute|].
  split; [by_computation|]. split; [by vm_compute|]. split; [by vm_compute|].
  by_computation.
Qed.

(* ===================================================================== *)
(** * Listing *)
(* ===================================================================== *)

Lemma sort_insert_perm {A} (cmp : A -> A -> Z) x l :
  JS.sort_insert cmp x l ≡ₚ x :: l.
Proof.
  induction l as [|y l IH]; simpl; [done|].
  destruct (cmp x y <? 0)%Z; [done|].
  rewrite IH. apply Permutation_swap.
Qed.

Lemma sort_perm {A} (cmp : A -> A -> Z) l : JS.sort cmp l ≡ₚ l.
Proof.
  unfold JS.sort.
  assert (forall acc, foldl (fun acc x => JS.sort_insert cmp x acc) acc l ≡ₚ acc ++ l) as H.
  { induction l as [|x l IH]; intros acc; simpl.
    - by rewrite app_nil_r.
    - rewrite IH, sort_insert_perm. simpl. apply Permutation_middle. }
  apply H.
Qed.

(** With a tag, [list] works on a filtered copy: the Store's array is the
    one it was. *)
Lemma listTerms_tagged_frame tag t defs :
  sanitizedTag_of tag = Some t -> (listTerms tag defs).2 = defs.
Proof.
  intros Ht. unfold listTerms. rewrite Ht.
  by destruct (filter _ defs).
Qed.

(** In every case the Store holds the same entries after [list], up to
    their order. *)
Lemma listTerms_same_entries tag defs : (listTerms tag defs).2 ≡ₚ defs.
Proof.
  unfold listTerms. destruct (sanitizedTag_of tag).
  - by destruct (filter _ defs).
  - destruct defs as [|d defs]; [done|]. cbn [snd]. apply sort_perm.
Qed.

(** C1, at the failing input.  [list] without a tag sorts the Store's own
    array in place: a collection holding beta before alpha holds alpha
    before beta afterwards.  With a tag the array is left as it was. *)
Theorem list_without_tag_reorders_store :
  let beta := mkDef "beta" None (Some ["greek"]) "the second letter" in
  let alpha := mkDef "alpha" None (Some ["greek"]) "the first letter" in
  let defs := [beta; alpha] in
  (listTerms None defs).2 = [alpha; beta] /\
  Data.definitions (data (process "list" (page defs))) = [alpha; beta] /\
  Data.definitions (data (process "ls" (page defs))) <> defs /\
  Data.definitions (data (process "list greek" (page defs))) = defs.
Proof. intros beta alpha defs. split_and!; by vm_compute. Qed.

(* ===================================================================== *)
(** * Dispatch *)
(* ===================================================================== *)

(** [delete] and [rm] hand the words of the line to [deleteTerm]; the
    collection and the stored item after the command are those it leaves. *)
Lemma process_delete command s :
  base_command command = "rm" \/ base_command command = "delete" ->
  let args := JS.split " " (JS.trim command) in
  process command s =
  render_result command (deleteTerm args (data s)).1
                (with_data (deleteTerm args (data s)).2 s).
Proof.
  unfold process, base_command.
  intros [H|H]; rewrite H; cbv zeta; by destruct (deleteTerm _ _).
Qed.

(** [find] looks up the rest of the line; a line that starts with no
    command word is looked up whole. *)
Lemma process_find command s :
  base_command command = "find" ->
  process command s =
  render_result command
    (findDefinition (JS.join " " (JS.slice1 (JS.split " " (JS.trim command))))
                    (Data.definitions (data s))) s.
Proof. unfold process, base_command. intros H. by rewrite H. Qed.

Lemma process_fallback command s :
  base_command command ∉ RESERVED_COMMANDS ->
  process command s =
  render_result command (findDefinition command (Data.definitions (data s))) s.
Proof.
  unfold process, base_command.
  generalize (JS.toLowerCase (default "" (head (JS.split " " (JS.trim command))))).
  intros base Hbase.
  assert (forall c, c ∈ RESERVED_COMMANDS -> bool_decide (base = c) = false) as Hc.
  { intros c Hin. apply bool_decide_eq_false_2. by intros ->. }
  rewrite !Hc by (by apply (bool_decide_unpack _)). done.
Qed.

(** [import] hands the words of the line to [importDefinitions]. *)
Lemma process_import command s :
  base_command command = "import" ->
  let args := JS.split " " (JS.trim command) in
  process command s =
  render_result command (importDefinitions args s).1 (importDefinitions args s).2.
Proof.
  unfold process, base_command.
  intros H; rewrite H; cbv zeta; by destruct (importDefinitions _ _).
Qed.

(** Rendering a result touches the page only. *)
Lemma render_result_data command result s :
  data (render_result command result s) = data s.
Proof. done. Qed.

(** * Scenarios of the specification *)

Example scenario_find_vector :
  let defs := [mkDef "vector" (Some ["vec"]) None "an arrow"] in
  findDefinition "vector" defs = formatDefinitionOutput (mkDef "vector" (Some ["vec"]) None "an arrow") /\
  findDefinition "vec" defs = formatDefinitionOutput (mkDef "vector" (Some ["vec"]) None "an arrow") /\
  findDefinition "vecot" defs = not_found_suggesting "vecot" "vector".
Proof. by vm_compute. Qed.

Example scenario_add_help :
  validate (UI.mkValues "Help" [] [] "how to get help") [] None
  = Some (ReservedTerm "Help").
Proof. by vm_compute. Qed.

Example scenario_list_algebra :
  let defs := [mkDef "vector" None (Some ["geometry"]) "an arrow"] in
  listTerms (Some "algebra") defs
  = (mkResult "No terms found with tag 'algebra'." yellow, defs).
Proof. by vm_compute. Qed.

Example scenario_distances :
  levenshteinDistance "vec3" "vector" = 3 /\
  levenshteinDistance "vecot" "vector" = 2 /\
  levenshteinDistance "kitten" "sitting" = 3.
Proof. by vm_compute. Qed.

(* ===================================================================== *)
(** * Further properties of the code *)
(* ===================================================================== *)

(** ** Strings *)




Lemma split_nonempty c s : JS.split c s <> [].
Proof.
  destruct s as [|x s]; simpl; [done|].
  destruct (decide (x = c)); [done|]. by destruct (JS.split c s).
Qed.

Lemma join_cons_nonempty sep x y l :
  JS.join sep (x :: y :: l) = x +:+ sep +:+ JS.join sep (y :: l).
Proof. reflexivity. Qed.

Lemma join_split c s : JS.join (String c "") (JS.split c s) = s.
Proof.
  induction s as [|x s IH]; [done|]. cbn [JS.split].
  destruct (decide (x = c)) as [->|Hne].
  - destruct (JS.split c s) as [|w ws] eqn:E; [by apply split_nonempty in E|].
    rewrite join_cons_nonempty, IH. reflexivity.
  - destruct (JS.split c s) as [|w ws] eqn:E; [by apply split_nonempty in E|].
    destruct ws as [|w' ws].
    + simpl in *. by rewrite IH.
    + rewrite join_cons_nonempty in *. rewrite <- IH. reflexivity.
Qed.

(** ** Sanitizing *)

Lemma sanitize_unit_safe c :
  Forall (fun u => markup_unit u = false) (list_ascii_of_string (sanitize_unit c)).
Proof. destruct c as [[] [] [] [] [] [] [] []]; by_computation. Qed.

Lemma list_ascii_of_string_app a b :
  list_ascii_of_string (a +:+ b) = list_ascii_of_string a ++ list_ascii_of_string b.
Proof. induction a as [|c a IH]; [done|]. cbn. by rewrite <- IH. Qed.

(** X1. Sanitized text holds no [<], no [>] and no quote of either kind:
    nothing in it can open or close markup or an attribute value. *)
Theorem sanitizeHTML_safe str :
  Forall (fun u => markup_unit u = false) (list_ascii_of_string (sanitizeHTML str)).
Proof.
  induction str as [|c s IH]; [constructor|]. cbn [sanitizeHTML].
  rewrite list_ascii_of_string_app. apply Forall_app. split; [apply sanitize_unit_safe|done].
Qed.

Lemma decode_head_sanitize c r : decode_head (sanitize_unit c +:+ r) = Some (c, r).
Proof. destruct c as [[] [] [] [] [] [] [] []]; reflexivity. Qed.

Lemma decode_head_sanitizeHTML_nil s : sanitizeHTML s = "" -> s = "".
Proof.
  destruct s as [|c s]; [done|]. cbn [sanitizeHTML]. intros H.
  pose proof (decode_head_sanitize c (sanitizeHTML s)) as Hd. by rewrite H in Hd.
Qed.

(** X2. Sanitizing loses nothing: two texts with the same sanitized form are
    the same text. *)
Theorem sanitizeHTML_inj a : forall b, sanitizeHTML a = sanitizeHTML b -> a = b.
Proof.
  induction a as [|x a IH]; intros b H.
  - symmetry. by apply decode_head_sanitizeHTML_nil.
  - destruct b as [|y b]; [by apply decode_head_sanitizeHTML_nil in H|].
    cbn [sanitizeHTML] in H.
    pose proof (decode_head_sanitize x (sanitizeHTML a)) as Hx.
    rewrite H, decode_head_sanitize in Hx. injection Hx as -> Hr.
    f_equal. by apply IH.
Qed.

Lemma sanitizeHTML_inj_witness :
  sanitizeHTML "<b>" = sanitizeHTML "<b>" /\ "<b>" = "<b>".
Proof. split; [reflexivity|]. apply (sanitizeHTML_inj "<b>" "<b>"). reflexivity. Defined.

(** ** Trimming *)

Lemma trimStart_no_lead s : no_lead (JS.trimStart s).
Proof.
  induction s as [|c s IH]; simpl; [done|].
  destruct (JS.is_space c) eqn:E; [done|]. simpl. done.
Qed.

Lemma trimStart_fixed s : no_lead s -> JS.trimStart s = s.
Proof. destruct s as [|c s]; simpl; [done|]. by intros ->. Qed.

Lemma trimStart_idemp s : JS.trimStart (JS.trimStart s) = JS.trimStart s.
Proof. apply trimStart_fixed, trimStart_no_lead. Qed.

Lemma reverse_involutive s : JS.reverse (JS.reverse s) = s.
Proof.
  unfold JS.reverse. rewrite list_ascii_of_string_of_list_ascii, rev_involutive.
  apply string_of_list_ascii_of_string.
Qed.

Lemma string_of_list_ascii_app l1 l2 :
  string_of_list_ascii (l1 ++ l2) = string_of_list_ascii l1 +:+ string_of_list_ascii l2.
Proof. induction l1 as [|c l1 IH]; [done|]. cbn. by rewrite IH. Qed.

Lemma reverse_cons c s : JS.reverse (String c s) = JS.reverse s +:+ String c "".
Proof. unfold JS.reverse. cbn. by rewrite string_of_list_ascii_app. Qed.

Lemma reverse_snoc c s : JS.reverse (s +:+ String c "") = String c (JS.reverse s).
Proof.
  unfold JS.reverse. rewrite list_ascii_of_string_app. cbn.
  by rewrite rev_app_distr.
Qed.

Lemma trimStart_snoc s c :
  JS.is_space c = false ->
  JS.trimStart (s +:+ String c "") = JS.trimStart s +:+ String c "".
Proof.
  intros Hc. induction s as [|x s IH].
  - change ("" +:+ String c "") with (String c ""). cbn [JS.trimStart].
    by rewrite Hc.
  - change (String x s +:+ String c "") with (String x (s +:+ String c "")).
    cbn [JS.trimStart]. destruct (JS.is_space x); done.
Qed.

Lemma trimEnd_no_lead s : no_lead s -> no_lead (JS.trimEnd s).
Proof.
  destruct s as [|c s]; [done|]. cbn [no_lead]. intros Hc.
  unfold JS.trimEnd. rewrite reverse_cons, trimStart_snoc, reverse_snoc by done.
  done.
Qed.

Lemma trimEnd_idemp s : JS.trimEnd (JS.trimEnd s) = JS.trimEnd s.
Proof. unfold JS.trimEnd. by rewrite reverse_involutive, trimStart_idemp. Qed.

Lemma trim_no_lead s : no_lead (JS.trim s).
Proof. apply trimEnd_no_lead, trimStart_no_lead. Qed.

Lemma trim_idemp s : JS.trim (JS.trim s) = JS.trim s.
Proof.
  unfold JS.trim at 1. rewrite (trimStart_fixed (JS.trim s)) by apply trim_no_lead.
  unfold JS.trim. apply trimEnd_idemp.
Qed.

(** ** The comma-separated fields *)

Lemma includes_comma_cons x a :
  JS.includes (String x a) "," = false -> x <> UI.comma /\ JS.includes a "," = false.
Proof.
  rewrite includes_cons, orb_false_iff. intros [Hp Hi]. split; [|done].
  intros ->. by destruct a.
Qed.

Lemma append_nil_r s : s +:+ "" = s.
Proof. induction s as [|c s IH]; [done|]. rewrite append_cons. by rewrite IH. Qed.

Lemma split_free a : forall t w ws,
  JS.includes a "," = false ->
  JS.split UI.comma t = w :: ws ->
  JS.split UI.comma (a +:+ t) = (a +:+ w) :: ws.
Proof.
  induction a as [|x a IH]; intros t w ws Ha Ht; [done|].
  apply includes_comma_cons in Ha as [Hx Ha].
  rewrite append_cons. cbn [JS.split]. rewrite decide_False by done.
  by rewrite (IH t w ws Ha Ht).
Qed.

Lemma split_free_single a :
  JS.includes a "," = false -> JS.split UI.comma a = [a].
Proof.
  intros Ha. rewrite <- (append_nil_r a) at 1.
  rewrite (split_free a "" "" []) by done. by rewrite append_nil_r.
Qed.

Lemma split_joined x l :
  Forall (fun a => JS.includes a "," = false) (x :: l) ->
  JS.split UI.comma (JS.join ", " (x :: l)) = x :: map (String " ") l.
Proof.
  revert x. induction l as [|y l IH]; intros x Hall.
  - apply Forall_cons in Hall as [Hx _]. by apply split_free_single.
  - apply Forall_cons in Hall as [Hx Hall].
    rewrite join_cons_nonempty.
    assert (JS.split UI.comma (", " +:+ JS.join ", " (y :: l))
            = "" :: String " " y :: map (String " ") l) as Hrest.
    { change (", " +:+ JS.join ", " (y :: l))
        with (String UI.comma (String " " (JS.join ", " (y :: l)))).
      cbn [JS.split]. rewrite decide_True by done.
      rewrite decide_False by done. by rewrite (IH y Hall). }
    rewrite (split_free x _ _ _ Hx Hrest). by rewrite append_nil_r.
Qed.

Lemma trim_space a : JS.trim (String " " a) = JS.trim a.
Proof. reflexivity. Qed.

Lemma field_list_join l :
  Forall listable l -> UI.field_list (JS.join ", " l) = l.
Proof.
  intros Hall. destruct l as [|x l]; [done|].
  unfold UI.field_list. rewrite split_joined.
  2:{ eapply Forall_impl; [exact Hall|]. by intros a (_ & _ & ?). }
  cbn [map].
  assert (map JS.trim (map (String " ") l) = l) as ->.
  { apply Forall_cons in Hall as [_ Hl]. induction Hl as [|a l [Ha _] _ IH]; [done|].
    cbn [map]. by rewrite trim_space, Ha, IH. }
  assert (JS.trim x = x) as -> by (apply Forall_cons in Hall as [[? _] _]; done).
  induction Hall as [|a l' (_ & Ha & _) _ IH]; [done|].
  rewrite filter_cons_True by by destruct a. by rewrite IH.
Qed.

(** ** The names of a collection *)

Lemma named_ci_elem k d :
  named_ci k d <-> JS.toLowerCase k ∈ map JS.toLowerCase (Data.keys_of d).
Proof.
  unfold named_ci, same_ci. rewrite Exists_exists.
  change (map JS.toLowerCase (Data.keys_of d)) with (JS.toLowerCase <$> Data.keys_of d).
  rewrite list_elem_of_fmap. split.
  - intros [x [Hx Heq]]. by exists x.
  - intros [x [Heq Hx]]. by exists x.
Qed.

Lemma all_keys_app l1 l2 : all_keys (l1 ++ l2) = all_keys l1 ++ all_keys l2.
Proof. unfold all_keys. by rewrite map_app, concat_app. Qed.

Lemma all_keys_cons d l : all_keys (d :: l) = Data.keys_of d ++ all_keys l.
Proof. reflexivity. Qed.

Lemma elem_of_all_keys_lower x defs :
  x ∈ map JS.toLowerCase (all_keys defs) <->
  exists d, d ∈ defs /\ x ∈ map JS.toLowerCase (Data.keys_of d).
Proof.
  induction defs as [|d defs IH].
  - split; [by intros ?%elem_of_nil|]. by intros [d [?%elem_of_nil _]].
  - rewrite all_keys_cons, map_app, elem_of_app, IH. split.
    + intros [H|[d' [Hd' H]]]; [exists d|exists d']; split; try done;
        [by left|by right].
    + intros [d' [Hd' H]]. apply elem_of_cons in Hd' as [->|Hd']; [by left|].
      right. by exists d'.
Qed.

(** Uniqueness of names, around one entry of the collection. *)
Lemma names_unique_middle l1 d l2 :
  names_unique (l1 ++ d :: l2) <->
  NoDup (map JS.toLowerCase (Data.keys_of d)) /\
  names_unique (l1 ++ l2) /\
  forall k d', k ∈ Data.keys_of d -> d' ∈ l1 ++ l2 -> ~ named_ci k d'.
Proof.
  unfold names_unique.
  assert (map JS.toLowerCase (all_keys (l1 ++ d :: l2)) ≡ₚ
          map JS.toLowerCase (Data.keys_of d) ++ map JS.toLowerCase (all_keys (l1 ++ l2)))
    as ->.
  { rewrite !all_keys_app, all_keys_cons, !map_app.
    by rewrite (assoc_L (++)), (Permutation_app_comm (map _ (all_keys l1))),
      <- (assoc_L (++)). }
  rewrite NoDup_app. split.
  - intros (Hd & Hdis & Hrest). split_and!; [done|done|].
    intros k d' Hk Hd' Hnamed. apply named_ci_elem in Hnamed.
    apply (Hdis (JS.toLowerCase k)).
    + change (map JS.toLowerCase (Data.keys_of d)) with (JS.toLowerCase <$> Data.keys_of d).
      apply list_elem_of_fmap. by exists k.
    + apply elem_of_all_keys_lower. by exists d'.
  - intros (Hd & Hrest & Hdis). split_and!; [done| |done].
    intros x Hx Hx'. apply elem_of_all_keys_lower in Hx' as [d' [Hd' Hx']].
    change (map JS.toLowerCase (Data.keys_of d)) with (JS.toLowerCase <$> Data.keys_of d) in Hx.
    apply list_elem_of_fmap in Hx as [k [-> Hk]].
    apply (Hdis k d' Hk Hd'). by apply named_ci_elem.
Qed.

Lemma elem_of_delete_iff {A} (l : list A) i x :
  x ∈ delete i l <-> exists j, j <> i /\ l !! j = Some x.
Proof.
  rewrite list_elem_of_lookup. split.
  - intros [j Hj]. destruct (decide (j < i)).
    + rewrite list_lookup_delete_lt in Hj by done. exists j. split; [lia|done].
    + rewrite list_lookup_delete_ge in Hj by lia. exists (S j). split; [lia|done].
  - intros [j [Hne Hj]]. destruct (decide (j < i)).
    + exists j. by rewrite list_lookup_delete_lt.
    + exists (j - 1). rewrite list_lookup_delete_ge by lia.
      by replace (S (j - 1)) with j by lia.
Qed.

(** ** What the validator lets through *)

Lemma collides_iff defs excl name :
  Validator.collides defs excl name <->
  exists j d, defs !! j = Some d /\ excl <> Some j /\ named_ci name d.
Proof.
  split; [apply collides_other|].
  intros [j [d [Hj [Hne Hnamed]]]]. unfold Validator.collides.
  apply Exists_exists. exists (j, d). split; [|done].
  apply list_elem_of_lookup. exists j. by rewrite list_lookup_imap, Hj.
Qed.

Lemma collides_none defs name :
  Validator.collides defs None name <-> exists d, d ∈ defs /\ named_ci name d.
Proof.
  rewrite collides_iff. split.
  - intros [j [d [Hj [_ Hn]]]]. exists d. split; [|done].
    apply list_elem_of_lookup. eauto.
  - intros [d [Hd Hn]]. apply list_elem_of_lookup in Hd as [j Hj]. by exists j, d.
Qed.

Lemma collides_some defs i name :
  Validator.collides defs (Some i) name <->
  exists d, d ∈ delete i defs /\ named_ci name d.
Proof.
  rewrite collides_iff. split.
  - intros [j [d [Hj [Hne Hn]]]]. exists d. split; [|done].
    apply elem_of_delete_iff. exists j. split; [congruence|done].
  - intros [d [Hd Hn]]. apply elem_of_delete_iff in Hd as [j [Hne Hj]].
    exists j, d. split_and!; [done|congruence|done].
Qed.

Lemma head_filter_None {A} (P : A -> Prop) `{forall x, Decision (P x)} (l : list A) :
  head (filter P l) = None <-> Forall (fun x => ~ P x) l.
Proof.
  induction l as [|x l IH]; [split; [constructor|done]|].
  rewrite Forall_cons. destruct (decide (P x)).
  - rewrite filter_cons_True by done. split; [done|]. by intros [? _].
  - rewrite filter_cons_False by done. rewrite IH. tauto.
Qed.

Lemma validate_None v defs excl :
  validate v defs excl = None <-> passes v defs excl.
Proof.
  rewrite validate_first_failure. unfold Validator.first_failure, passes.
  cbn [foldr].
  unfold Validator.check1, Validator.check2, Validator.check3, Validator.check4,
    Validator.check5, Validator.check6, Validator.check7, Validator.check8,
    Validator.check9.
  destruct (decide (UI.v_term v = "" \/ UI.v_definition v = "")) as [H1|H1];
    [split; [done|tauto]|].
  destruct (decide (Validator.reserved (UI.v_term v))) as [H2|H2];
    [split; [done|tauto]|].
  destruct (JS.includes (UI.v_term v) ",") eqn:H3;
    [split; [done|by intros (_ & _ & _ & ? & _)]|].
  destruct (head (filter Validator.reserved (UI.v_aliases v))) as [a|] eqn:H4.
  { split; [done|]. intros (_ & _ & _ & _ & H & _).
    apply (proj2 (head_filter_None Validator.reserved _)) in H. congruence. }
  apply head_filter_None in H4. cbn [fmap option_fmap option_map].
  destruct (decide (NoDup (map JS.toLowerCase (UI.v_aliases v)))) as [H5|H5];
    [|split; [done|tauto]].
  destruct (decide (Exists (fun alias => same_ci alias (UI.v_term v)) (UI.v_aliases v)))
    as [H6|H6]; [split; [done|tauto]|].
  destruct (decide (Validator.collides defs excl (UI.v_term v))) as [H7|H7];
    [split; [done|tauto]|].
  destruct (head (filter (Validator.collides defs excl) (UI.v_aliases v))) as [a|] eqn:H7'.
  { split; [done|]. intros (_ & _ & _ & _ & _ & _ & _ & _ & H & _).
    apply (proj2 (head_filter_None (Validator.collides defs excl) _)) in H.
    congruence. }
  apply head_filter_None in H7'. cbn [fmap option_fmap option_map].
  destruct (termRegex_test (UI.v_term v)); [|split; [done|by intros (_&_&_&_&_&_&_&_&_&?&_)]].
  destruct (forallb termRegex_test (UI.v_aliases v));
    [|split; [done|by intros (_&_&_&_&_&_&_&_&_&_&?&_)]].
  destruct (forallb tagRegex_test (UI.v_tags v));
    [|split; [done|by intros (_&_&_&_&_&_&_&_&_&_&_&?)]].
  split; [|done]. intros _. split_and!; try done; tauto.
Qed.

(** ** Saving *)






Lemma saveDefinition_rejected s r :
  validate (UI.getEditorValues (ui s)) (Data.definitions (data s)) (currentEditIndex s)
    = Some r ->
  saveDefinition s = Some (with_ui (UI.setEditorMessage (message r) (ui s)) s).
Proof. intros H. unfold saveDefinition. by rewrite H. Qed.






Lemma forallb_Forall {A} (p : A -> bool) l :
  forallb p l = true <-> Forall (fun x => p x = true) l.
Proof.
  induction l as [|x l IH]; simpl; [split; [constructor|done]|].
  rewrite andb_true_iff, Forall_cons, IH. done.
Qed.






(** X5. A reserved word, in any casing, is accepted neither as a term nor as
    an alias: the save is refused, and nothing but the message of the editor
    changes. *)
Theorem reserved_word_rejected (s : Commands.State) (name : string) :
  Validator.reserved name ->
  name = UI.v_term (UI.getEditorValues (ui s)) \/
  name ∈ UI.v_aliases (UI.getEditorValues (ui s)) ->
  exists r, saveDefinition s = Some (with_ui (UI.setEditorMessage (message r) (ui s)) s).
Proof.
  intros Hres Hname.
  destruct (validate (UI.getEditorValues (ui s)) (Data.definitions (data s))
                     (currentEditIndex s)) as [r|] eqn:Hval.
  - exists r. by apply saveDefinition_rejected.
  - exfalso. apply validate_None in Hval as (_&_&Ht&_&Ha&_).
    destruct Hname as [->|Hin]; [done|].
    rewrite Forall_forall in Ha. by apply (Ha name).
Qed.

Lemma reserved_word_rejected_witness :
  let s := with_ui (UI.mk [] "" "HeLp" "" "" "how to get help" "" "" false) (page []) in
  Validator.reserved "HeLp" /\
  exists r, saveDefinition s = Some (with_ui (UI.setEditorMessage (message r) (ui s)) s).
Proof.
  intros s.
  assert (Validator.reserved "HeLp") as H by by_computation.
  split; [exact H|].
  apply (reserved_word_rejected s "HeLp" H). left. reflexivity.
Defined.

(** ** Deleting *)

Lemma names_unique_delete i defs : names_unique defs -> names_unique (delete i defs).
Proof.
  intros Hu. destruct (defs !! i) as [d|] eqn:Hd.
  - rewrite <- (take_drop_middle defs i d Hd) in Hu.
    apply names_unique_middle in Hu as (_ & Hu & _). by rewrite delete_take_drop.
  - apply lookup_ge_None in Hd.
    rewrite delete_take_drop, take_ge, drop_ge, app_nil_r by lia. done.
Qed.

Lemma well_formed_delete i defs : well_formed defs -> well_formed (delete i defs).
Proof. intros [Hu Hc]. split; [by apply names_unique_delete|by apply Forall_delete]. Qed.

Lemma named_ci_trans t k d : same_ci k t -> named_ci t d -> named_ci k d.
Proof.
  unfold named_ci, same_ci. intros Hk H. eapply Exists_impl; [exact H|].
  intros x Hx. simpl in Hx. congruence.
Qed.

Lemma unresolved_after_delete defs t i e :
  names_unique defs -> resolves defs t i e -> unresolved (delete i defs) t.
Proof.
  intros Hu (Hd & Hnamed & _). unfold unresolved. apply Forall_forall.
  intros d' Hd' Hn'.
  rewrite <- (take_drop_middle defs i e Hd) in Hu.
  apply names_unique_middle in Hu as (_ & _ & Hdis).
  rewrite delete_take_drop in Hd'.
  unfold named_ci in Hnamed. apply Exists_exists in Hnamed as [k [Hk Hkt]].
  apply (Hdis k d' Hk Hd'). by apply (named_ci_trans t).
Qed.

Lemma deleteTerm_confirmed args d index entry :
  term_argument args <> "" ->
  resolves (Data.definitions d) (term_argument args) index entry ->
  confirmFlag ∈ args ->
  (deleteTerm args d).2 =
  Data.mk (delete index (Data.definitions d)) (Data.commandHistory d)
          (Some (delete index (Data.definitions d))).
Proof.
  intros Ht Hres Hflag. unfold deleteTerm. fold (term_argument args).
  destruct (term_argument args) eqn:E; [done|]. cbn [JS.truthy negb].
  rewrite <- E in *. rewrite (findDefinitionAndIndex_resolves _ _ _ _ Hres).
  apply arr_includes_true in Hflag. by rewrite Hflag.
Qed.

Lemma deleteTerm_unresolved args d :
  term_argument args <> "" ->
  unresolved (Data.definitions d) (term_argument args) ->
  deleteTerm args d =
  (mkResult ("Error: Term '" +:+ sanitizeHTML (term_argument args) +:+ "' not found.")
            red, d).
Proof.
  intros Ht Hun. unfold deleteTerm. fold (term_argument args).
  destruct (term_argument args) eqn:E; [done|]. cbn [JS.truthy negb].
  rewrite <- E in *. by rewrite findDefinitionAndIndex_unresolved.
Qed.

(** X6. In a collection with unique names a confirmed [delete] removes the
    only entry that answers to the name: names stay unique, the name no
    longer resolves, and the same command again reports that the term is not
    found. *)
Theorem delete_twice_not_found (args : list string) (d : Data.t) index entry :
  names_unique (Data.definitions d) ->
  term_argument args <> "" ->
  resolves (Data.definitions d) (term_argument args) index entry ->
  confirmFlag ∈ args ->
  let d' := (deleteTerm args d).2 in
  names_unique (Data.definitions d') /\
  unresolved (Data.definitions d') (term_argument args) /\
  deleteTerm args d' =
    (mkResult ("Error: Term '" +:+ sanitizeHTML (term_argument args) +:+ "' not found.")
              red, d').
Proof.
  intros Hu Ht Hres Hflag d'. unfold d'.
  rewrite (deleteTerm_confirmed _ _ _ _ Ht Hres Hflag). cbn [Data.definitions].
  assert (unresolved (delete index (Data.definitions d)) (term_argument args)) as Hun
    by by eapply unresolved_after_delete.
  split_and!; [by apply names_unique_delete|done|].
  by apply deleteTerm_unresolved.
Qed.

Lemma delete_twice_not_found_witness :
  let args := ["rm"; "Vec"; "--confirm"] in
  let d := Data.mk [mkDef "vector" (Some ["vec"]) None "an arrow";
                    mkDef "scalar" None None "a number"] [] None in
  names_unique (Data.definitions d) /\
  term_argument args <> "" /\
  resolves (Data.definitions d) (term_argument args) 0
           (mkDef "vector" (Some ["vec"]) None "an arrow") /\
  confirmFlag ∈ args /\
  deleteTerm args (deleteTerm args d).2 =
    (mkResult "Error: Term 'Vec' not found." red, (deleteTerm args d).2).
Proof.
  intros args d.
  assert (names_unique (Data.definitions d)) as H1 by by_computation.
  assert (term_argument args <> "") as H2 by by_computation.
  assert (resolves (Data.definitions d) (term_argument args) 0
            (mkDef "vector" (Some ["vec"]) None "an arrow")) as H3.
  { split_and!; [done|by_computation|intros; lia]. }
  assert (confirmFlag ∈ args) as H4 by by_computation.
  split; [exact H1|]. split; [exact H2|]. split; [exact H3|]. split; [exact H4|].
  exact (proj2 (proj2 (delete_twice_not_found args d 0 _ H1 H2 H3 H4))).
Defined.

(** ** Commands and the collection *)

Lemma all_keys_perm l l' : l ≡ₚ l' -> all_keys l ≡ₚ all_keys l'.
Proof.
  induction 1 as [|x l l' _ IH|x y l|l l' l'' _ IH1 _ IH2].
  - done.
  - rewrite !all_keys_cons. by rewrite IH.
  - rewrite !all_keys_cons. by rewrite !(assoc_L (++)), (Permutation_app_comm (Data.keys_of y)).
  - by rewrite IH1.
Qed.

Lemma well_formed_perm l l' : l ≡ₚ l' -> well_formed l -> well_formed l'.
Proof.
  intros Hp [Hu Hc]. split.
  - unfold names_unique in *. by rewrite <- (all_keys_perm _ _ Hp).
  - by rewrite <- Hp.
Qed.

(** The collection and the stored item after a command. *)
Lemma process_data command s :
  data (process command s) =
  let base := base_command command in
  let d := data s in
  if bool_decide (base = "clear") then Data.with_commandHistory [] d
  else if bool_decide (base = "ls") || bool_decide (base = "list")
       then Data.with_definitions
              (listTerms (words command !! 1) (Data.definitions d)).2 d
  else if bool_decide (base = "rm") || bool_decide (base = "delete")
       then (deleteTerm (words command) d).2
  else if bool_decide (base = "import")
       then data (importDefinitions (words command) s).2
  else d.
Proof.
  unfold process, base_command, words. cbv zeta.
  generalize (JS.toLowerCase (default "" (head (JS.split " " (JS.trim command))))).
  intros base.
  destruct (decide (base = "help")) as [->|Hhelp]; [done|].
  rewrite (bool_decide_eq_false_2 (base = "help")) by done.
  destruct (bool_decide (base = "clear")); [done|].
  destruct (bool_decide (base = "ls") || bool_decide (base = "list")).
  { by destruct (listTerms _ _). }
  destruct (decide (base = "add")) as [->|Hadd]; [done|].
  rewrite (bool_decide_eq_false_2 (base = "add")) by done.
  destruct (decide (base = "edit")) as [->|Hedit].
  { cbn. destruct (negb (JS.truthy _)); [done|].
    by destruct (findDefinitionAndIndex _ _) as [[definition index]|]. }
  rewrite (bool_decide_eq_false_2 (base = "edit")) by done.
  destruct (bool_decide (base = "rm") || bool_decide (base = "delete")).
  { by destruct (deleteTerm _ _). }
  destruct (decide (base = "find")) as [->|Hfind]; [done|].
  rewrite (bool_decide_eq_false_2 (base = "find")) by done.
  destruct (decide (base = "export")) as [->|Hexp]; [done|].
  rewrite (bool_decide_eq_false_2 (base = "export")) by done.
  destruct (bool_decide (base = "import")); [|done].
  by destruct (importDefinitions _ _).
Qed.

Lemma deleteTerm_storage_or_same args d :
  (deleteTerm args d).2 = d \/
  exists index, (deleteTerm args d).2
                = Data.mk (delete index (Data.definitions d)) (Data.commandHistory d)
                          (Some (delete index (Data.definitions d))).
Proof.
  unfold deleteTerm. destruct (negb (JS.truthy _)); [by left|].
  destruct (findDefinitionAndIndex _ _) as [[definition index]|]; [|by left].
  destruct (negb (JS.arr_includes _ _)); [by left|]. right. by exists index.
Qed.

Lemma not_elem_bool (base c : string) (l : list string) :
  base ∉ l -> c ∈ l -> bool_decide (base = c) = false.
Proof. intros Hl Hin. apply bool_decide_eq_false_2. by intros <-. Qed.

(** X7. Which commands can touch the collection and the stored item: only
    [ls], [list], [rm], [delete] and [import] can change the collection,
    only [rm], [delete] and [import] what is stored; and short of [import] a
    command either permutes the collection or deletes one entry and persists
    the outcome. *)
Theorem process_frame (command : string) (s : Commands.State) :
  let base := base_command command in
  let s' := process command s in
  (base ∉ ["ls"; "list"; "rm"; "delete"; "import"] ->
   Data.definitions (data s') = Data.definitions (data s)) /\
  (base ∉ ["rm"; "delete"; "import"] ->
   Data.storage (data s') = Data.storage (data s)) /\
  (base <> "import" ->
   Data.definitions (data s') ≡ₚ Data.definitions (data s) \/
   exists index,
     Data.definitions (data s') = delete index (Data.definitions (data s)) /\
     Data.storage (data s') = Some (Data.definitions (data s'))).
Proof.
  intros base s'. unfold s'. rewrite process_data. cbv zeta. fold base.
  split_and!.
  - intros Hb.
    rewrite (not_elem_bool base "ls" _ Hb), (not_elem_bool base "list" _ Hb),
      (not_elem_bool base "rm" _ Hb), (not_elem_bool base "delete" _ Hb),
      (not_elem_bool base "import" _ Hb) by by_computation.
    cbn [orb]. by destruct (bool_decide (base = "clear")).
  - intros Hb.
    rewrite (not_elem_bool base "rm" _ Hb), (not_elem_bool base "delete" _ Hb),
      (not_elem_bool base "import" _ Hb) by by_computation.
    cbn [orb]. destruct (bool_decide (base = "clear")); [done|].
    by destruct (bool_decide (base = "ls") || bool_decide (base = "list")).
  - intros Hb. rewrite (bool_decide_eq_false_2 (base = "import")) by done.
    destruct (bool_decide (base = "clear")); [by left|].
    destruct (bool_decide (base = "ls") || bool_decide (base = "list")).
    { left. apply listTerms_same_entries. }
    destruct (bool_decide (base = "rm") || bool_decide (base = "delete")); [|by left].
    destruct (deleteTerm_storage_or_same (words command) (data s)) as [->|[i ->]];
      [by left|]. right. by exists i.
Qed.

(** X8. No command but [import] makes a well-formed collection ill formed:
    after it names are still unique up to case and every entry is still
    within what the validator accepts. *)
Theorem process_keeps_well_formed (command : string) (s : Commands.State) :
  base_command command <> "import" ->
  well_formed (Data.definitions (data s)) ->
  well_formed (Data.definitions (data (process command s))).
Proof.
  intros Hb Hwf. rewrite process_data. cbv zeta.
  rewrite (bool_decide_eq_false_2 (_ = "import")) by done.
  destruct (bool_decide (_ = "clear")); [done|].
  destruct (bool_decide (_ = "ls") || bool_decide (_ = "list")).
  { eapply well_formed_perm; [|exact Hwf]. symmetry. apply listTerms_same_entries. }
  destruct (bool_decide (_ = "rm") || bool_decide (_ = "delete")); [|done].
  destruct (deleteTerm_storage_or_same (words command) (data s)) as [->|[i ->]];
    [done|]. by apply well_formed_delete.
Qed.

Lemma process_keeps_well_formed_witness :
  let s := page [mkDef "vector" (Some ["vec"]) None "an arrow";
                 mkDef "scalar" None (Some ["algebra"]) "a number"] in
  base_command "rm vec --confirm" <> "import" /\
  well_formed (Data.definitions (data s)) /\
  well_formed (Data.definitions (data (process "rm vec --confirm" s))).
Proof.
  intros s.
  assert (base_command "rm vec --confirm" <> "import") as H1 by by_computation.
  assert (well_formed (Data.definitions (data s))) as H2 by by_computation.
  split; [exact H1|]. split; [exact H2|].
  exact (process_keeps_well_formed "rm vec --confirm" s H1 H2).
Defined.

(** ** Editing *)

Lemma process_edit command s index d :
  base_command command = "edit" ->
  let t := JS.join " " (JS.slice1 (words command)) in
  t <> "" ->
  resolves (Data.definitions (data s)) t index d ->
  process command s =
  with_ui (UI.renderBlock (commandEchoHTML command) (UI.openEditor (Some d) (ui s)))
          (with_currentEditIndex (Some index) s).
Proof.
  intros Hb t Ht Hres. unfold process. unfold base_command in Hb. rewrite Hb.
  cbv zeta. unfold words in *. fold t.
  rewrite (findDefinitionAndIndex_resolves _ _ _ _ Hres).
  destruct t eqn:E; [done|]. reflexivity.
Qed.

Lemma class_unit_plain c :
  is_alnum c || (nat_of_ascii c =? 45) = true ->
  JS.is_space c = false /\ c <> UI.comma.
Proof. destruct c as [[] [] [] [] [] [] [] []]; by vm_compute. Qed.

Lemma term_unit_no_comma c :
  is_alnum c || JS.is_space c || (nat_of_ascii c =? 45) || (nat_of_ascii c =? 39)
  || (nat_of_ascii c =? 46) = true -> c <> UI.comma.
Proof. destruct c as [[] [] [] [] [] [] [] []]; by vm_compute. Qed.

Lemma includes_comma_false a :
  Forall (fun c => c <> UI.comma) (list_ascii_of_string a) ->
  JS.includes a "," = false.
Proof.
  induction a as [|x a IH]; [done|]. cbn [list_ascii_of_string].
  intros [Hx Ha]%Forall_cons. rewrite includes_cons, (IH Ha), orb_false_r.
  clear IH Ha. destruct x as [[] [] [] [] [] [] [] []]; try reflexivity.
  by destruct Hx.
Qed.

Lemma termRegex_listable a :
  termRegex_test a = true -> a <> "" /\ JS.includes a "," = false.
Proof.
  unfold termRegex_test. intros [Ht Hall]%andb_true_iff. split; [by destruct a|].
  apply includes_comma_false. apply forallb_Forall in Hall.
  eapply Forall_impl; [exact Hall|]. intros c Hc. by apply term_unit_no_comma.
Qed.

Lemma no_lead_of_units s :
  Forall (fun c => JS.is_space c = false) (list_ascii_of_string s) -> no_lead s.
Proof. destruct s as [|c s]; [done|]. by intros [? _]%Forall_cons. Qed.

Lemma trim_fixed s : no_lead s -> no_lead (JS.reverse s) -> JS.trim s = s.
Proof.
  intros H1 H2. unfold JS.trim, JS.trimEnd.
  by rewrite (trimStart_fixed s H1), (trimStart_fixed _ H2), reverse_involutive.
Qed.

Lemma tagRegex_listable t : tagRegex_test t = true -> listable t.
Proof.
  unfold tagRegex_test. intros [Ht Hall]%andb_true_iff.
  apply forallb_Forall in Hall.
  assert (Forall (fun c => JS.is_space c = false /\ c <> UI.comma)
                 (list_ascii_of_string t)) as Hu.
  { eapply Forall_impl; [exact Hall|]. intros c Hc. by apply class_unit_plain. }
  split_and!.
  - apply trim_fixed.
    + apply no_lead_of_units. eapply Forall_impl; [exact Hu|]. by intros c [? _].
    + apply no_lead_of_units. unfold JS.reverse.
      rewrite list_ascii_of_string_of_list_ascii. apply Forall_rev.
      eapply Forall_impl; [exact Hu|]. by intros c [? _].
  - by destruct t.
  - apply includes_comma_false. eapply Forall_impl; [exact Hu|]. by intros c [_ ?].
Qed.

(** The editor shows a clean entry as it is stored. *)
Lemma getEditorValues_openEditor (d : Def) (u : UI.t) :
  JS.trim (term d) = term d ->
  JS.trim (definition d) = definition d ->
  Forall listable (aliases_or_empty d) ->
  Forall listable (default [] (tags d)) ->
  UI.getEditorValues (UI.openEditor (Some d) u) =
  UI.mkValues (term d) (aliases_or_empty d) (default [] (tags d)) (definition d).
Proof.
  intros Ht Hd Ha Hg. unfold UI.getEditorValues, UI.openEditor.
  cbn [UI.termInput UI.aliasesInput UI.tagsInput UI.definitionInput].
  by rewrite Ht, Hd, !field_list_join.
Qed.

Lemma entry_clean_values d u :
  entry_clean d ->
  UI.getEditorValues (UI.openEditor (Some d) u) =
  UI.mkValues (term d) (aliases_or_empty d) (default [] (tags d)) (definition d).
Proof.
  intros (_ & _ & Ht & Hd & _ & _ & Ha & Hg).
  apply getEditorValues_openEditor; [done|done| |].
  - eapply Forall_impl; [exact Ha|]. intros a (_ & Hr & Htr).
    destruct (termRegex_listable a Hr). by split_and!.
  - eapply Forall_impl; [exact Hg|]. intros t Hr. by apply tagRegex_listable.
Qed.

(** An entry of a well-formed collection passes the validator when it is
    resubmitted as it is during its own edit session. *)
Lemma own_values_pass defs index d :
  well_formed defs -> defs !! index = Some d ->
  passes (UI.mkValues (term d) (aliases_or_empty d) (default [] (tags d)) (definition d))
         defs (Some index).
Proof.
  intros [Hu Hc] Hd.
  assert (entry_clean d) as (Ht & Hdf & _ & _ & Hres & Hrt & Ha & Hg).
  { rewrite Forall_forall in Hc. apply Hc. apply list_elem_of_lookup. eauto. }
  rewrite <- (take_drop_middle defs index d Hd) in Hu.
  apply names_unique_middle in Hu as (Hnd & _ & Hdis).
  change (Data.keys_of d) with (term d :: aliases_or_empty d) in Hnd, Hdis.
  cbn [map] in Hnd. apply NoDup_cons in Hnd as [Hnot Hnd].
  assert (forall k, k ∈ term d :: aliases_or_empty d ->
                    ~ Validator.collides defs (Some index) k) as Hfree.
  { intros k Hk [d' [Hd' Hn]]%collides_some. rewrite delete_take_drop in Hd'.
    by apply (Hdis k d' Hk Hd'). }
  unfold passes. cbn [UI.v_term UI.v_aliases UI.v_tags UI.v_definition].
  split_and!; try done.
  - by destruct (termRegex_listable _ Hrt).
  - eapply Forall_impl; [exact Ha|]. by intros a (? & _).
  - intros Hex. apply Hnot. apply Exists_exists in Hex as [a [Ha' Heq]].
    change (map JS.toLowerCase (aliases_or_empty d))
      with (JS.toLowerCase <$> aliases_or_empty d).
    apply list_elem_of_fmap. exists a. split; [by symmetry|done].
  - apply Hfree. by left.
  - apply Forall_forall. intros a Ha'. apply Hfree. by right.
  - apply forallb_Forall. eapply Forall_impl; [exact Ha|]. by intros a (_ & ? & _).
  - by apply forallb_Forall.
Qed.

(** X9. In a well-formed collection, [edit] of a name that resolves followed
    by a save of the untouched editor is accepted: the entry is stored back
    at its position, with an absent list of aliases or tags made empty, the
    collection is persisted and the editor closes. A field of the editor is
    taken to give back the text assigned to it. *)
Theorem edit_then_save_unchanged (command : string) (s : Commands.State) index d :
  well_formed (Data.definitions (data s)) ->
  base_command command = "edit" ->
  JS.join " " (JS.slice1 (words command)) <> "" ->
  resolves (Data.definitions (data s)) (JS.join " " (JS.slice1 (words command)))
           index d ->
  exists s',
    saveDefinition (process command s) = Some s' /\
    Data.definitions (data s') = <[index := resubmitted d]> (Data.definitions (data s)) /\
    Data.storage (data s') = Some (Data.definitions (data s')) /\
    UI.editorHidden (ui s') = true.
Proof.
  intros Hwf Hb Ht Hres. rewrite (process_edit _ _ _ _ Hb Ht Hres).
  destruct Hres as (Hd & _).
  assert (entry_clean d) as Hclean.
  { destruct Hwf as [_ Hc]. rewrite Forall_forall in Hc. apply Hc.
    apply list_elem_of_lookup. eauto. }
  unfold saveDefinition.
  cbn [ui data currentEditIndex with_ui with_currentEditIndex].
  change (UI.getEditorValues (UI.renderBlock (commandEchoHTML command)
             (UI.openEditor (Some d) (ui s))))
    with (UI.getEditorValues (UI.openEditor (Some d) (ui s))).
  rewrite (entry_clean_values d (ui s) Hclean).
  rewrite (proj2 (validate_None _ _ _) (own_values_pass _ _ _ Hwf Hd)).
  unfold Data.updateDefinition.
  rewrite decide_True by by eapply lookup_lt_Some.
  eexists. split; [reflexivity|]. split_and!; reflexivity.
Qed.

Lemma edit_then_save_unchanged_witness :
  let vector := mkDef "vector" (Some ["vec"]) None "an arrow" in
  let scalar := mkDef "scalar" None (Some ["algebra"]) "a number" in
  let s := page [vector; scalar] in
  well_formed (Data.definitions (data s)) /\
  base_command "edit Vec" = "edit" /\
  JS.join " " (JS.slice1 (words "edit Vec")) <> "" /\
  resolves (Data.definitions (data s)) (JS.join " " (JS.slice1 (words "edit Vec")))
           0 vector /\
  exists s',
    saveDefinition (process "edit Vec" s) = Some s' /\
    Data.definitions (data s')
    = [mkDef "vector" (Some ["vec"]) (Some []) "an arrow"; scalar].
Proof.
  intros vector scalar s.
  assert (well_formed (Data.definitions (data s))) as H1 by by_computation.
  assert (base_command "edit Vec" = "edit") as H2 by by_computation.
  assert (JS.join " " (JS.slice1 (words "edit Vec")) <> "") as H3 by by_computation.
  assert (resolves (Data.definitions (data s))
            (JS.join " " (JS.slice1 (words "edit Vec"))) 0 vector) as H4.
  { split_and!; [done|by_computation|intros; lia]. }
  split; [exact H1|]. split; [exact H2|]. split; [exact H3|]. split; [exact H4|].
  destruct (edit_then_save_unchanged "edit Vec" s 0 vector H1 H2 H3 H4)
    as [s' [Hs [Hd _]]].
  exists s'. split; [exact Hs|]. rewrite Hd. reflexivity.
Defined.

(** ** The history *)

Lemma addToHistory_last cmd h : last (Data.addToHistory cmd h) = Some cmd.
Proof.
  unfold Data.addToHistory.
  destruct (bool_decide (length h = 0)) eqn:E1; cbn [orb].
  - by rewrite last_snoc.
  - destruct (bool_decide (last h = Some cmd)) eqn:E2; cbn [negb].
    + by apply bool_decide_eq_true in E2.
    + by rewrite last_snoc.
Qed.

Lemma addToHistory_no_repeat cmd h :
  no_repeat h -> no_repeat (Data.addToHistory cmd h).
Proof.
  intros Hn. unfold Data.addToHistory.
  destruct (bool_decide (length h = 0) || negb (bool_decide (last h = Some cmd)))
    eqn:E; [|done].
  intros i x Hi HS.
  assert (S i < length (h ++ [cmd])) as Hlt by by eapply lookup_lt_Some.
  rewrite length_app in Hlt. cbn in Hlt.
  destruct (decide (S i < length h)) as [Hin|Hout].
  - rewrite lookup_app_l in Hi by lia. rewrite lookup_app_l in HS by lia.
    by apply (Hn i x).
  - assert (S i = length h) as Hi' by lia.
    rewrite lookup_app_l in Hi by lia.
    rewrite lookup_app_r, Hi', Nat.sub_diag in HS by lia. injection HS as <-.
    apply orb_true_iff in E as [E|E].
    + apply bool_decide_eq_true in E. lia.
    + apply negb_true_iff, bool_decide_eq_false in E. apply E.
      rewrite last_lookup. by replace (pred (length h)) with i by lia.
Qed.

Lemma enter_history a :
  let command := JS.trim (input_of a) in
  command <> "" ->
  history_of (App.handleTerminalInput App.Enter a) =
  if bool_decide (base_command command = "clear") then []
  else Data.addToHistory command (history_of a).
Proof.
  intros command Hne. unfold history_of, input_of in *.
  cbn [App.handleTerminalInput]. fold command.
  destruct command eqn:Ec; [done|]. cbn [JS.truthy]. rewrite <- Ec in *.
  cbn [App.commands App.set_input with_ui data].
  by rewrite process_history.
Qed.

(** X10. Whatever the key, a history that holds no command twice in a row
    still holds none twice in a row afterwards. *)
Theorem history_never_repeats (key : App.Key) (a : App.State) :
  no_repeat (history_of a) ->
  no_repeat (history_of (App.handleTerminalInput key a)).
Proof.
  intros Hn. destruct key.
  - destruct (JS.trim (input_of a)) as [|c cmd] eqn:Ec.
    + unfold history_of, input_of in *. cbn [App.handleTerminalInput]. by rewrite Ec.
    + rewrite enter_history by by rewrite Ec.
      case_bool_decide; [by intros i x ?|]. by apply addToHistory_no_repeat.
  - unfold history_of in *. cbn [App.handleTerminalInput].
    by destruct (0 <? App.historyIndex a)%Z.
  - unfold history_of in *. cbn [App.handleTerminalInput].
    by destruct (App.historyIndex a <? _)%Z.
  - done.
Qed.

Lemma history_never_repeats_witness :
  let a := App.mk (App.set_input "help"
                     (with_data (Data.mk [] ["list"; "help"] None) (page []))) 2 in
  no_repeat (history_of a) /\
  no_repeat (history_of (App.handleTerminalInput App.Enter a)).
Proof.
  intros a.
  assert (no_repeat (history_of a)) as H.
  { intros [|[|i]] x Hx; vm_compute in Hx; vm_compute; congruence. }
  split; [exact H|].
  exact (history_never_repeats App.Enter a H).
Defined.

(** X11. After a command other than [clear] is entered, ArrowUp brings that
    command, trimmed, back to the input line, with the cursor on its entry
    of the history. *)
Theorem enter_then_up_recalls (a : App.State) :
  let command := JS.trim (input_of a) in
  command <> "" ->
  base_command command <> "clear" ->
  let a' := App.handleTerminalInput App.ArrowUp
              (App.handleTerminalInput App.Enter a) in
  input_of a' = command /\
  history_of a' !! Z.to_nat (App.historyIndex a') = Some command.
Proof.
  intros command Hne Hb a'.
  pose proof (enter_history a Hne) as Hh. fold command in Hh.
  rewrite bool_decide_eq_false_2 in Hh by done.
  pose proof (enter_resets_cursor a Hne Hb) as Hc. cbv zeta in Hc.
  pose proof (addToHistory_last command (history_of a)) as Hlast.
  rewrite <- Hh in Hlast. unfold history_of in *.
  set (a1 := App.handleTerminalInput App.Enter a) in *.
  assert (0 < length (Data.commandHistory (data (App.commands a1)))) as Hpos.
  { destruct (Data.commandHistory (data (App.commands a1))); [done|cbn; lia]. }
  unfold a', input_of. cbn [App.handleTerminalInput].
  rewrite Hc.
  destruct (0 <? Z.of_nat _)%Z eqn:E; [|apply Z.ltb_ge in E; lia].
  cbn [App.commands App.historyIndex App.set_input with_ui ui data UI.commandInput
       UI.with_commandInput].
  rewrite last_lookup in Hlast.
  assert (Z.to_nat (Z.of_nat (length (Data.commandHistory (data (App.commands a1)))) - 1)
          = pred (length (Data.commandHistory (data (App.commands a1))))) as Hidx by lia.
  unfold App.history_at.
  destruct (_ <? 0)%Z eqn:E'; [apply Z.ltb_lt in E'; lia|].
  rewrite Hidx, Hlast. done.
Qed.

Lemma enter_then_up_recalls_witness :
  let a := App.mk (App.set_input "  find vec " 
                     (page [mkDef "vector" (Some ["vec"]) None "an arrow"])) 0 in
  JS.trim (input_of a) <> "" /\
  base_command (JS.trim (input_of a)) <> "clear" /\
  input_of (App.handleTerminalInput App.ArrowUp
              (App.handleTerminalInput App.Enter a)) = "find vec".
Proof.
  intros a.
  assert (JS.trim (input_of a) <> "") as H1 by by_computation.
  assert (base_command (JS.trim (input_of a)) <> "clear") as H2 by by_computation.
  split; [exact H1|]. split; [exact H2|].
  exact (proj1 (enter_then_up_recalls a H1 H2)).
Defined.

(** X12. From a cursor within the history, ArrowUp and ArrowDown move it by
    one and show the command at the new position; ArrowUp at the first
    command changes nothing, and ArrowDown at or past the last one puts the
    cursor at the end and blanks the input line. *)
Theorem recall_shows_history (a : App.State) :
  cursor_in_bounds a ->
  let idx := App.historyIndex a in
  let len := Z.of_nat (length (history_of a)) in
  let up := App.handleTerminalInput App.ArrowUp a in
  let down := App.handleTerminalInput App.ArrowDown a in
  ((0 < idx)%Z ->
   App.historyIndex up = (idx - 1)%Z /\
   history_of a !! Z.to_nat (idx - 1) = Some (input_of up)) /\
  (idx = 0%Z -> up = a) /\
  ((idx < len - 1)%Z ->
   App.historyIndex down = (idx + 1)%Z /\
   history_of a !! Z.to_nat (idx + 1) = Some (input_of down)) /\
  ((len - 1 <= idx)%Z ->
   App.historyIndex down = len /\ input_of down = "").
Proof.
  unfold cursor_in_bounds, history_of, input_of. intros [H0 Hlen].
  cbv zeta. cbn [App.handleTerminalInput]. split_and!.
  - intros Hpos. apply Z.ltb_lt in Hpos as Hpos'. rewrite Hpos'.
    cbn [App.commands App.historyIndex App.set_input with_ui ui UI.commandInput
         UI.with_commandInput]. split; [done|].
    unfold App.history_at.
    destruct (_ <? 0)%Z eqn:E; [apply Z.ltb_lt in E; lia|].
    destruct (lookup_lt_is_Some_2 (Data.commandHistory (data (App.commands a)))
                (Z.to_nat (App.historyIndex a - 1))) as [x Hx]; [lia|].
    by rewrite Hx.
  - intros ->. done.
  - intros Hlt. apply Z.ltb_lt in Hlt as Hlt'. rewrite Hlt'.
    cbn [App.commands App.historyIndex App.set_input with_ui ui UI.commandInput
         UI.with_commandInput]. split; [done|].
    unfold App.history_at.
    destruct (_ <? 0)%Z eqn:E; [apply Z.ltb_lt in E; lia|].
    destruct (lookup_lt_is_Some_2 (Data.commandHistory (data (App.commands a)))
                (Z.to_nat (App.historyIndex a + 1))) as [x Hx]; [lia|].
    by rewrite Hx.
  - intros Hge. apply Z.ltb_ge in Hge as Hge'. rewrite Hge'. done.
Qed.

Lemma recall_shows_history_witness :
  let a := App.mk (with_data (Data.mk [] ["help"; "list"] None) (page [])) 1 in
  cursor_in_bounds a /\
  input_of (App.handleTerminalInput App.ArrowUp a) = "help" /\
  input_of (App.handleTerminalInput App.ArrowDown a) = "".
Proof.
  intros a.
  assert (cursor_in_bounds a) as H by by_computation.
  split; [exact H|].
  destruct (recall_shows_history a H) as [Hup [_ [_ Hdown]]].
  split.
  - destruct Hup as [_ Hup]; [reflexivity|].
    apply (inj Some). rewrite <- Hup. reflexivity.
  - apply Hdown. vm_compute. discriminate.
Defined.



(** ** Levenshtein bounds *)

Lemma lev_le_max a : forall b, Lev.lev a b <= Nat.max (length a) (length b).
Proof.
  induction a as [|x a IH]; intros b.
  - rewrite LevFacts.lev_nil_l. lia.
  - destruct b as [|y b].
    + rewrite LevFacts.lev_nil_r. lia.
    + rewrite LevFacts.lev_cons. specialize (IH b).
      assert (Lev.indicator x y <= 1) by (unfold Lev.indicator; case_decide; lia).
      unfold Lev.min3. cbn [length]. lia.
Qed.

Lemma length_list_ascii s : length (list_ascii_of_string s) = String.length s.
Proof. induction s as [|c s IH]; [done|]. cbn. by rewrite IH. Qed.

Lemma levenshteinDistance_bounds_aux (a b : string) :
  String.length a - String.length b <= levenshteinDistance a b /\
  String.length b - String.length a <= levenshteinDistance a b /\
  levenshteinDistance a b <= Nat.max (String.length a) (String.length b).
Proof.
  rewrite levenshteinDistance_lev.
  pose proof (LevFacts.lev_length_l (rev (list_ascii_of_string a))
                (rev (list_ascii_of_string b))) as H1.
  pose proof (LevFacts.lev_length_r (rev (list_ascii_of_string a))
                (rev (list_ascii_of_string b))) as H2.
  pose proof (lev_le_max (rev (list_ascii_of_string a))
                (rev (list_ascii_of_string b))) as H3.
  rewrite !length_rev, !length_list_ascii in *. lia.
Qed.

(** X14. The distance of two strings is at least the difference of their
    lengths, either way, and at most the longer of the two lengths. *)
Theorem levenshteinDistance_bounds (a b : string) :
  String.length a - String.length b <= levenshteinDistance a b /\
  String.length b - String.length a <= levenshteinDistance a b /\
  levenshteinDistance a b <= Nat.max (String.length a) (String.length b).
Proof. apply levenshteinDistance_bounds_aux. Qed.

(** ** Suggestions *)


(** ** The order of the listing *)












(** ** What the editor reads *)

Lemma includes_comma_units a :
  JS.includes a "," = false <->
  Forall (fun c => c <> UI.comma) (list_ascii_of_string a).
Proof.
  split; [|apply includes_comma_false].
  induction a as [|x a IH]; [constructor|].
  intros [Hx Ha]%includes_comma_cons. cbn. constructor; [done|by apply IH].
Qed.

Lemma split_pieces_free s :
  Forall (fun w => Forall (fun c => c <> UI.comma) (list_ascii_of_string w))
         (JS.split UI.comma s).
Proof.
  induction s as [|x s IH]; [repeat constructor|]. cbn [JS.split].
  destruct (decide (x = UI.comma)) as [->|Hne].
  - constructor; [constructor|done].
  - destruct (JS.split UI.comma s) as [|w ws]; [repeat constructor; done|].
    apply Forall_cons in IH as [Hw Hws]. constructor; [|done].
    cbn. by constructor.
Qed.

Lemma trimStart_units (P : ascii -> Prop) s :
  Forall P (list_ascii_of_string s) ->
  Forall P (list_ascii_of_string (JS.trimStart s)).
Proof.
  induction s as [|c s IH]; [done|]. cbn [JS.trimStart list_ascii_of_string].
  intros [Hc Hs]%Forall_cons. destruct (JS.is_space c); [by apply IH|].
  cbn. by constructor.
Qed.

Lemma reverse_units (P : ascii -> Prop) s :
  Forall P (list_ascii_of_string s) ->
  Forall P (list_ascii_of_string (JS.reverse s)).
Proof.
  intros H. unfold JS.reverse. rewrite list_ascii_of_string_of_list_ascii.
  by apply Forall_rev.
Qed.

Lemma trim_units (P : ascii -> Prop) s :
  Forall P (list_ascii_of_string s) ->
  Forall P (list_ascii_of_string (JS.trim s)).
Proof.
  intros H. unfold JS.trim, JS.trimEnd.
  by apply reverse_units, trimStart_units, reverse_units, trimStart_units.
Qed.

Lemma field_list_listable raw : Forall listable (UI.field_list raw).
Proof.
  unfold UI.field_list. apply Forall_forall. intros a Ha.
  apply list_elem_of_filter in Ha as [Hne Ha].
  change (map JS.trim (JS.split UI.comma raw)) with (JS.trim <$> JS.split UI.comma raw) in Ha.
  apply list_elem_of_fmap in Ha as [x [-> Hx]]. split_and!.
  - apply trim_idemp.
  - by destruct (JS.trim x).
  - apply includes_comma_units, trim_units.
    pose proof (split_pieces_free raw) as Hf. rewrite Forall_forall in Hf. by apply Hf.
Qed.

(** X18. What the editor reads is in normal form: term and definition
    trimmed, each alias and tag trimmed, not empty and free of commas; an
    entry made of these values and opened again reads the same. *)
Theorem editor_values_normal (u u' : UI.t) :
  let v := UI.getEditorValues u in
  JS.trim (UI.v_term v) = UI.v_term v /\
  JS.trim (UI.v_definition v) = UI.v_definition v /\
  Forall listable (UI.v_aliases v) /\
  Forall listable (UI.v_tags v) /\
  UI.getEditorValues (UI.openEditor (Some (entry_of v)) u') = v.
Proof.
  cbv zeta.
  assert (JS.trim (UI.v_term (UI.getEditorValues u)) = UI.v_term (UI.getEditorValues u))
    as H1 by apply trim_idemp.
  assert (JS.trim (UI.v_definition (UI.getEditorValues u))
          = UI.v_definition (UI.getEditorValues u)) as H2 by apply trim_idemp.
  pose proof (field_list_listable (UI.aliasesInput u)) as H3.
  pose proof (field_list_listable (UI.tagsInput u)) as H4.
  split_and!; try done.
  by rewrite (getEditorValues_openEditor (entry_of (UI.getEditorValues u)) u' H1 H2 H3 H4).
Qed.

(** ** What a command writes to the terminal *)

Lemma append_assoc a b c : (a +:+ b) +:+ c = a +:+ (b +:+ c).
Proof. induction a as [|x a IH]; [done|]. rewrite !append_cons. by rewrite IH. Qed.

Lemma render_result_output command result s :
  exists rest,
    UI.output (ui (render_result command result s))
    = UI.output (ui s) ++ [commandEchoHTML command +:+ rest].
Proof.
  unfold render_result. destruct (JS.truthy (html result)).
  - eexists. cbn [ui with_ui UI.renderBlock UI.output UI.with_output].
    by rewrite !append_assoc.
  - exists "<br>". reflexivity.
Qed.

Lemma render_result_ui_frame command result s :
  let u := ui (render_result command result s) in
  UI.commandInput u = UI.commandInput (ui s) /\
  UI.editorHidden u = UI.editorHidden (ui s).
Proof. done. Qed.

(** X19. Every command but [clear] appends one block to the terminal, which
    starts with the echo of the command; [clear] leaves the welcome block
    alone. *)
Theorem process_echo (command : string) (s : Commands.State) :
  (base_command command <> "clear" ->
   exists rest,
     UI.output (ui (process command s))
     = UI.output (ui s) ++ [commandEchoHTML command +:+ rest]) /\
  (base_command command = "clear" ->
   UI.output (ui (process command s)) = [UI.welcome +:+ "<br>"]).
Proof.
  unfold process, base_command.
  generalize (JS.toLowerCase (default "" (head (JS.split " " (JS.trim command))))).
  intros base. split.
  - intros Hb.
    assert (forall r s0, ui s0 = ui s ->
              exists rest,
                UI.output (ui (render_result command r s0))
                = UI.output (ui s) ++ [commandEchoHTML command +:+ rest]) as Hout.
    { intros r s0 <-. apply render_result_output. }
    destruct (bool_decide (base = "help")); [by apply Hout|].
    rewrite (bool_decide_eq_false_2 (base = "clear")) by done.
    destruct (bool_decide (base = "ls") || bool_decide (base = "list")).
    { destruct (listTerms _ _) as [r defs']. by apply Hout. }
    destruct (bool_decide (base = "add")).
    { exists "<br>". reflexivity. }
    destruct (bool_decide (base = "edit")).
    { destruct (negb (JS.truthy _)); [by apply Hout|].
      destruct (findDefinitionAndIndex _ _) as [[definition index]|];
        [|by apply Hout].
      exists "<br>". reflexivity. }
    destruct (bool_decide (base = "rm") || bool_decide (base = "delete")).
    { destruct (deleteTerm _ _) as [r d']. by apply Hout. }
    destruct (bool_decide (base = "find")); [by apply Hout|].
    destruct (bool_decide (base = "export")); [by apply Hout|].
    destruct (bool_decide (base = "import")); [|by apply Hout].
    destruct (importDefinitions _ _) as [r s'] eqn:E. apply Hout.
    unfold importDefinitions in E. destruct (JS.arr_includes _ _).
    + destruct (pendingImportData s); by injection E as <- <-.
    + by injection E as <- <-.
  - intros ->. reflexivity.
Qed.

(** X20. Which commands can touch the editing session, the staged import and
    the downloads: only [add] and [edit] change the edited position or show
    the editor, only [import] the staged data and the file dialog, only
    [export] the downloads; [export] downloads the collection as it is and
    leaves the data alone. *)
Theorem process_session_frame (command : string) (s : Commands.State) :
  let base := base_command command in
  let s' := process command s in
  (base ∉ ["add"; "edit"] ->
   currentEditIndex s' = currentEditIndex s /\
   UI.editorHidden (ui s') = UI.editorHidden (ui s)) /\
  (base <> "import" ->
   pendingImportData s' = pendingImportData s /\ fileDialogs s' = fileDialogs s) /\
  (base <> "export" -> downloads s' = downloads s) /\
  (base = "export" ->
   downloads s' = downloads s ++ [Data.definitions (data s)] /\ data s' = data s).
Proof.
  intros base s'. unfold s', process. fold (base_command command). fold base.
  cbv zeta. generalize base. clear base s'. intros base.
  assert (forall args, currentEditIndex (importDefinitions args s).2 = currentEditIndex s
                       /\ ui (importDefinitions args s).2 = ui s
                       /\ downloads (importDefinitions args s).2 = downloads s) as Himp.
  { intros args. unfold importDefinitions. destruct (JS.arr_includes _ _); [|done].
    by destruct (pendingImportData s). }
  split_and!.
  - intros Hb.
    rewrite (not_elem_bool base "add" _ Hb), (not_elem_bool base "edit" _ Hb)
      by by_computation.
    destruct (bool_decide (base = "help")); [done|].
    destruct (bool_decide (base = "clear")); [done|].
    destruct (bool_decide (base = "ls") || bool_decide (base = "list")).
    { by destruct (listTerms _ _). }
    destruct (bool_decide (base = "rm") || bool_decide (base = "delete")).
    { by destruct (deleteTerm _ _). }
    destruct (bool_decide (base = "find")); [done|].
    destruct (bool_decide (base = "export")); [done|].
    destruct (bool_decide (base = "import")); [|done].
    destruct (Himp (JS.split " " (JS.trim command))) as (H1 & H2 & _).
    destruct (importDefinitions _ _) as [r s1]. cbn in *. by rewrite H1, H2.
  - intros Hb. rewrite (bool_decide_eq_false_2 (base = "import")) by done.
    destruct (bool_decide (base = "help")); [done|].
    destruct (bool_decide (base = "clear")); [done|].
    destruct (bool_decide (base = "ls") || bool_decide (base = "list")).
    { by destruct (listTerms _ _). }
    destruct (bool_decide (base = "add")); [done|].
    destruct (bool_decide (base = "edit")).
    { destruct (negb (JS.truthy _)); [done|].
      by destruct (findDefinitionAndIndex _ _) as [[definition index]|]. }
    destruct (bool_decide (base = "rm") || bool_decide (base = "delete")).
    { by destruct (deleteTerm _ _). }
    destruct (bool_decide (base = "find")); [done|].
    by destruct (bool_decide (base = "export")).
  - intros Hb. rewrite (bool_decide_eq_false_2 (base = "export")) by done.
    destruct (bool_decide (base = "help")); [done|].
    destruct (bool_decide (base = "clear")); [done|].
    destruct (bool_decide (base = "ls") || bool_decide (base = "list")).
    { by destruct (listTerms _ _). }
    destruct (bool_decide (base = "add")); [done|].
    destruct (bool_decide (base = "edit")).
    { destruct (negb (JS.truthy _)); [done|].
      by destruct (findDefinitionAndIndex _ _) as [[definition index]|]. }
    destruct (bool_decide (base = "rm") || bool_decide (base = "delete")).
    { by destruct (deleteTerm _ _). }
    destruct (bool_decide (base = "find")); [done|].
    destruct (bool_decide (base = "import")); [|done].
    destruct (Himp (JS.split " " (JS.trim command))) as (_ & _ & H3).
    destruct (importDefinitions _ _) as [r s1]. cbn in *. by rewrite H3.
  - intros ->. done.
Qed.

(** ** Loading a file *)

(** X21. Loading a file never touches the collection or the editing session;
    no file leaves everything as it was, and a file that is turned down
    discards what was staged before, so that a confirmation afterwards finds
    nothing to import. *)
Theorem reader_onload_frame (content : FileContent) (s : Commands.State) :
  let s' := reader_onload content s in
  data s' = data s /\
  currentEditIndex s' = currentEditIndex s /\
  (content = NoFile -> s' = s) /\
  (turned_down content ->
   pendingImportData s' = None /\
   forall args, importDefinitions args s' =
     if JS.arr_includes args "--confirm"
     then (mkResult "No file loaded. Please run 'import' first." yellow, s')
     else (mkResult "Opening file dialog..." None,
           Commands.mk (data s') (ui s') (currentEditIndex s') None (downloads s')
                       (S (fileDialogs s')))).
Proof.
  cbv zeta. destruct content as [|msg| |payload]; cbn [reader_onload turned_down].
  - by split_and!.
  - split_and!; [done|done|done|]. intros _. split; [done|]. intros args.
    unfold importDefinitions. by destruct (JS.arr_includes _ _).
  - split_and!; [done|done|done|]. intros _. split; [done|]. intros args.
    unfold importDefinitions. by destruct (JS.arr_includes _ _).
  - destruct (first_lacks_fields payload) eqn:E.
    + split_and!; [done|done|done|]. intros _. split; [done|]. intros args.
      unfold importDefinitions. by destruct (JS.arr_includes _ _).
    + split_and!; [done|done|done|]. intros Hno.
      by apply first_lacks_fields_spec in E.
Qed.

(** ** The words of a line *)

(** X22. The words of a line, joined by single spaces, are the trimmed line:
    the command word is the first of them, lower-cased, and what follows it
    is handed on as it was typed. *)
Theorem words_of_line (command : string) :
  JS.join " " (words command) = JS.trim command /\
  exists base rest,
    words command = base :: rest /\
    base_command command = JS.toLowerCase base /\
    (rest <> [] ->
     JS.trim command = base +:+ " " +:+ JS.join " " (JS.slice1 (words command))).
Proof.
  unfold words, base_command. split; [apply join_split|].
  pose proof (join_split " " (JS.trim command)) as Hj.
  destruct (JS.split " " (JS.trim command)) as [|base rest] eqn:E.
  { by apply split_nonempty in E. }
  exists base, rest. split_and!; [done|done|].
  intros Hne. destruct rest as [|y l]; [done|].
  rewrite <- Hj. reflexivity.
Qed.

(** ** Case *)


(** X24. The editor reads a stored entry back as it is stored, when its term
    and definition are trimmed and each alias and tag is trimmed, not empty
    and free of commas. A field of the editor is taken to give back the text
    assigned to it. *)
Theorem editor_round_trip (d : Def) (u : UI.t) :
  JS.trim (term d) = term d ->
  JS.trim (definition d) = definition d ->
  Forall listable (aliases_or_empty d) ->
  Forall listable (default [] (tags d)) ->
  UI.getEditorValues (UI.openEditor (Some d) u) =
  UI.mkValues (term d) (aliases_or_empty d) (default [] (tags d)) (definition d).
Proof. apply getEditorValues_openEditor. Qed.

Lemma editor_round_trip_witness :
  let d := mkDef "vector" (Some ["vec"; "arrow"]) (Some ["geometry"]) "an arrow" in
  JS.trim (term d) = term d /\
  JS.trim (definition d) = definition d /\
  Forall listable (aliases_or_empty d) /\
  Forall listable (default [] (tags d)) /\
  UI.getEditorValues (UI.openEditor (Some d) (ui (page []))) =
  UI.mkValues "vector" ["vec"; "arrow"] ["geometry"] "an arrow".
Proof.
  intros d.
  assert (JS.trim (term d) = term d) as H1 by reflexivity.
  assert (JS.trim (definition d) = definition d) as H2 by reflexivity.
  assert (Forall listable (aliases_or_empty d)) as H3 by by_computation.
  assert (Forall listable (default [] (tags d))) as H4 by by_computation.
  split; [exact H1|]. split; [exact H2|]. split; [exact H3|]. split; [exact H4|].
  exact (editor_round_trip d (ui (page [])) H1 H2 H3 H4).
Defined.
